(** * photo-gallery: the manifest patcher of [add_image.py] and [update.py]

    A shallow embedding of the two command-line scripts and of the part of
    Python's [re] and [str] they rely on, followed by the properties of the
    manifest patch, of the publisher and of the entry point.

    Text is a list of Unicode code points, as a Python [str] is.  A file
    holds the text its bytes stand for in UTF-8, line ends as they are
    stored: reading it in text mode turns [\r\n] and [\r] into [\n]
    ([universal_newlines]), and writing stores the text as given (the line
    separator is [\n], as on POSIX, which the path functions assume too)
    unless UTF-8 has no encoding for it ([encodable]). *)

From Stdlib Require Import List NArith ZArith Lia Bool String Ascii.
From stdpp Require Import base option list gmap.

Local Open Scope N_scope.

(** ** Text *)

Abbreviation str := (list N).

(** An ASCII literal of the source as a list of code points. *)
Definition lit (s : string) : str :=
  map N_of_ascii (list_ascii_of_string s).
Arguments lit : simpl never.

Definition NL : N := 10.
Definition CR : N := 13.
Definition BACKSLASH : N := 92.

(** [str.isspace] on one character, which is also what [\s] matches in a
    [str] pattern: the code points for which CPython's
    [_PyUnicode_IsWhitespace] answers true. *)
Definition isspace (c : N) : bool :=
  ((9 <=? c) && (c <=? 13)) || ((28 <=? c) && (c <=? 32))
  || (c =? 133) || (c =? 160) || (c =? 5760)
  || ((8192 <=? c) && (c <=? 8202))
  || (c =? 8232) || (c =? 8233) || (c =? 8239) || (c =? 8287) || (c =? 12288).

Fixpoint lstrip (s : str) : str :=
  match s with
  | c :: s' => if isspace c then lstrip s' else s
  | [] => []
  end.

Definition rstrip (s : str) : str := rev (lstrip (rev s)).

(** [s.strip()] *)
Definition strip (s : str) : str := rstrip (lstrip s).

Fixpoint startswith (s p : str) {struct p} : bool :=
  match p, s with
  | [], _ => true
  | c :: p', d :: s' => (c =? d) && startswith s' p'
  | _ :: _, [] => false
  end.

(** [s.endswith(p)] *)
Definition endswith (s p : str) : bool := startswith (rev s) (rev p).

(** Truth value of a Python string: non-empty. *)
Definition truthy (s : str) : bool :=
  match s with [] => false | _ :: _ => true end.

(** ** Regular expressions: the fragment of [re] the scripts use

    A backtracking matcher in continuation-passing style.  Quantifiers are
    applied to single-character atoms only, which is all the pattern of the
    scripts needs. *)

Inductive atom :=
| ALit (c : N)     (* a literal character *)
| ASpace           (* \s *)
| AAny.            (* . under re.DOTALL: any character, newline included *)

Definition atom_matches (a : atom) (c : N) : bool :=
  match a with
  | ALit d => d =? c
  | ASpace => isspace c
  | AAny => true
  end.

Inductive regex :=
| REmpty
| RAtom (a : atom)
| RStar (a : atom)                  (* a*   greedy *)
| RPlus (a : atom)                  (* a+   greedy *)
| RLazy (a : atom)                  (* a*?  lazy *)
| RSeq (r1 r2 : regex)
| RGroup (i : N) (r : regex).       (* capturing group number i *)

(** Captured groups, by number; group 0 is the whole match. *)
Abbreviation groups := (gmap N str).

Section Matcher.
Context {R : Type}.

(** Greedy star: the longest run first, shorter ones on backtracking. *)
Fixpoint star_greedy (a : atom) (s : str) (k : str -> option R) : option R :=
  match s with
  | c :: s' =>
      if atom_matches a c then
        match star_greedy a s' k with
        | Some r => Some r
        | None => k s
        end
      else k s
  | [] => k s
  end.

(** Lazy star: the shortest run first, longer ones on backtracking. *)
Fixpoint star_lazy (a : atom) (s : str) (k : str -> option R) : option R :=
  match k s with
  | Some r => Some r
  | None =>
      match s with
      | c :: s' => if atom_matches a c then star_lazy a s' k else None
      | [] => None
      end
  end.

(** [rmatch r s g k]: match [r] at the head of [s] with the groups [g]
    captured so far, and hand the rest of the text to [k]. *)
Fixpoint rmatch (r : regex) (s : str) (g : groups)
         (k : str -> groups -> option R) : option R :=
  match r with
  | REmpty => k s g
  | RAtom a =>
      match s with
      | c :: s' => if atom_matches a c then k s' g else None
      | [] => None
      end
  | RStar a => star_greedy a s (fun s' => k s' g)
  | RPlus a =>
      match s with
      | c :: s' =>
          if atom_matches a c then star_greedy a s' (fun s'' => k s'' g)
          else None
      | [] => None
      end
  | RLazy a => star_lazy a s (fun s' => k s' g)
  | RSeq r1 r2 => rmatch r1 s g (fun s' g' => rmatch r2 s' g' k)
  | RGroup i r1 =>
      rmatch r1 s g
        (fun s' g' => k s' (<[i := take (length s - length s') s]> g'))
  end.
End Matcher.

(** A match anchored at the head of [s]: the groups and the text after it. *)
Definition match_here (r : regex) (s : str) : option (groups * str) :=
  rmatch r s ∅
    (fun s' g => Some (<[0 := take (length s - length s') s]> g, s')).

(** A match object: the text before the match, the groups, the text after. *)
Record Match := mkMatch {
  m_pre : str;
  m_groups : groups;
  m_post : str
}.

(** [m.group(i)] *)
Definition group (g : groups) (i : N) : str := default [] (g !! i).

(** [re.search(r, s)]: the leftmost match. *)
Fixpoint re_search (r : regex) (s : str) : option Match :=
  match match_here r s with
  | Some (g, rest) => Some (mkMatch [] g rest)
  | None =>
      match s with
      | c :: s' =>
          match re_search r s' with
          | Some m => Some (mkMatch (c :: m_pre m) (m_groups m) (m_post m))
          | None => None
          end
      | [] => None
      end
  end.

(** Number of capturing groups of a pattern. *)
Fixpoint ngroups (r : regex) : N :=
  match r with
  | RSeq r1 r2 => N.max (ngroups r1) (ngroups r2)
  | RGroup i r1 => N.max i (ngroups r1)
  | _ => 0
  end.

(** *** Replacement templates ([re]'s [parse_template]) *)

Inductive piece :=
| PLit (c : N)       (* a literal character *)
| PGroup (i : N).    (* a reference to group i *)

Definition is_digit (c : N) : bool := (48 <=? c) && (c <=? 57).
Definition is_octdigit (c : N) : bool := (48 <=? c) && (c <=? 55).
Definition is_ascii_letter (c : N) : bool :=
  ((65 <=? c) && (c <=? 90)) || ((97 <=? c) && (c <=? 122)).
Definition digit_val (c : N) : N := c - 48.

(** The letter escapes of a template: \a \b \f \n \r \t \v and \\. *)
Definition escape_char (c : N) : option N :=
  if c =? 97 then Some 7 else if c =? 98 then Some 8
  else if c =? 102 then Some 12 else if c =? 110 then Some 10
  else if c =? 114 then Some 13 else if c =? 116 then Some 9
  else if c =? 118 then Some 11 else if c =? 92 then Some 92
  else None.

Definition decimal (name : str) : N :=
  fold_left (fun acc c => 10 * acc + digit_val c) name 0.

(** A group reference; a number above the pattern's group count is an
    error ("invalid group reference"). *)
Definition addgroup (n : N) (i : N) (rest : option (list piece))
  : option (list piece) :=
  if i <=? n then cons (PGroup i) <$> rest else None.

(** [parse_template n name s]: the replacement string [s] as a list of
    pieces, for a pattern with [n] groups; [None] when [re] raises.
    [name] is [Some acc] while the name of a [\g<...>] reference is being
    read.  Names that are not ASCII decimal numerals are rejected, as
    CPython 3.12 does (the pattern of the scripts has no named group;
    earlier versions accept a few more spellings of a number and warn). *)
Fixpoint parse_template (n : N) (name : option str) (s : str)
  : option (list piece) :=
  match name with
  | Some acc =>
      match s with
      | [] => None                               (* missing >, unterminated *)
      | c :: s1 =>
          if c =? 62 (* > *) then
            if truthy acc && forallb is_digit acc
            then addgroup n (decimal acc) (parse_template n None s1)
            else None                            (* missing or bad group name *)
          else if c =? BACKSLASH then
            match s1 with
            | [] => None                         (* bad escape (end) *)
            | e :: s2 => parse_template n (Some (acc ++ [c; e])) s2
            end
          else parse_template n (Some (acc ++ [c])) s1
      end
  | None =>
      match s with
      | [] => Some []
      | c :: s1 =>
          if c =? BACKSLASH then
            match s1 with
            | [] => None                         (* bad escape (end) *)
            | e :: s2 =>
                if e =? 103 (* g *) then
                  match s2 with
                  | lt :: s3 =>
                      if lt =? 60 (* < *) then parse_template n (Some []) s3
                      else None                  (* missing < *)
                  | [] => None
                  end
                else if e =? 48 (* \0: octal escape of up to 3 digits *) then
                  match s2 with
                  | o1 :: s3 =>
                      if is_octdigit o1 then
                        match s3 with
                        | o2 :: s4 =>
                            if is_octdigit o2 then
                              cons (PLit (N.land (8 * digit_val o1 + digit_val o2) 255))
                                <$> parse_template n None s4
                            else cons (PLit (digit_val o1)) <$> parse_template n None s3
                        | [] => Some [PLit (digit_val o1)]
                        end
                      else cons (PLit 0) <$> parse_template n None s2
                  | [] => Some [PLit 0]
                  end
                else if is_digit e then
                  match s2 with
                  | d2 :: s3 =>
                      if is_digit d2 then
                        match s3 with
                        | d3 :: s4 =>
                            if is_octdigit e && is_octdigit d2 && is_octdigit d3 then
                              let v := 64 * digit_val e + 8 * digit_val d2 + digit_val d3 in
                              if 255 <? v then None   (* octal escape out of range *)
                              else cons (PLit v) <$> parse_template n None s4
                            else
                              addgroup n (10 * digit_val e + digit_val d2)
                                (parse_template n None s3)
                        | [] =>
                            addgroup n (10 * digit_val e + digit_val d2) (Some [])
                        end
                      else addgroup n (digit_val e) (parse_template n None s2)
                  | [] => addgroup n (digit_val e) (Some [])
                  end
                else
                  match escape_char e with
                  | Some v => cons (PLit v) <$> parse_template n None s2
                  | None =>
                      if is_ascii_letter e then None   (* bad escape *)
                      else (fun ps => PLit c :: PLit e :: ps)
                             <$> parse_template n None s2
                  end
            end
          else cons (PLit c) <$> parse_template n None s1
      end
  end.

(** [m.expand(template)] *)
Definition expand (tpl : list piece) (g : groups) : str :=
  flat_map (fun p => match p with PLit c => [c] | PGroup i => group g i end) tpl.

(** The scan of [re.sub]: every non-overlapping match, leftmost first, is
    replaced by the expansion of the template.  [skip] counts the characters
    of the text that the last match already consumed. *)
Fixpoint sub_loop (r : regex) (tpl : list piece) (s : str) (skip : nat) : str :=
  match s with
  | [] =>
      match match_here r [] with
      | Some (g, _) => expand tpl g
      | None => []
      end
  | c :: s' =>
      match skip with
      | S k => sub_loop r tpl s' k
      | O =>
          match match_here r s with
          | Some (g, rest) =>
              match (length s - length rest)%nat with
              | O => expand tpl g ++ c :: sub_loop r tpl s' 0
              | S k => expand tpl g ++ sub_loop r tpl s' k
              end
          | None => c :: sub_loop r tpl s' 0
          end
      end
  end.

(** [re.sub(r, repl, s)] for a replacement string [repl]; [None] when the
    template is rejected ([re.error], [IndexError]). *)
Definition re_sub (r : regex) (repl : str) (s : str) : option str :=
  match parse_template (ngroups r) None repl with
  | Some tpl => Some (sub_loop r tpl s 0)
  | None => None
  end.

(** ** The pattern of the scripts

    [r'(const\s+images\s*=\s*\[)(.*?)(\];)'], used with [re.DOTALL]. *)

Definition rlit (l : str) : regex :=
  foldr (fun c r => RSeq (RAtom (ALit c)) r) REmpty l.

Definition pattern : regex :=
  RSeq (RGroup 1
          (RSeq (rlit (lit "const"))
          (RSeq (RPlus ASpace)
          (RSeq (rlit (lit "images"))
          (RSeq (RStar ASpace)
          (RSeq (rlit (lit "="))
          (RSeq (RStar ASpace)
                (rlit (lit "[")))))))))
  (RSeq (RGroup 2 (RLazy AAny))
        (RGroup 3 (rlit (lit "];")))).

(** ** The world the scripts run in *)

(** What [subprocess.run(..., capture_output=True, text=True)] observes of a
    finished command: whether its exit status is zero, and its output. *)
Record completed := mkCompleted {
  returncode_zero : bool;
  proc_stdout : str;
  proc_stderr : str
}.

(** The state the scripts read and change: the files the scripts themselves
    read and write (the source image, its copy and the page), each with
    what it stores, the lines printed so far and the shell commands run so
    far (both oldest first).  What git keeps in its own directory is not
    part of [fs]: a shell command is seen through its exit status and its
    output only. *)
Record world := mkWorld {
  fs : gmap str str;
  out : list str;
  cmds : list str
}.

(** What the scripts do not control: whether [os.makedirs] and
    [shutil.copy2] succeed, and how a shell command ends given the commands
    run before it. *)
Record environment := mkEnv {
  makedirs_ok : bool;
  copy_ok : str -> str -> bool;
  shell : list str -> str -> completed
}.

(** [SystemExit] is what [sys.exit] raises; [Error] stands for an instance
    of [Exception] ([re.error], [IndexError], [OSError],
    [UnicodeEncodeError]). *)
Inductive exn :=
| SystemExit (code : Z)
| Error.

Inductive res (A : Type) :=
| Val (a : A)
| Exc (e : exn).
Arguments Val {A} a.
Arguments Exc {A} e.

(** State and exceptions. *)
Definition M (A : Type) : Type := world -> res A * world.

Definition ret {A} (a : A) : M A := fun w => (Val a, w).

Definition bind {A B} (m : M A) (k : A -> M B) : M B :=
  fun w =>
    match m w with
    | (Val a, w') => k a w'
    | (Exc e, w') => (Exc e, w')
    end.

Declare Scope py_scope.
Delimit Scope py_scope with py.
Notation "x <- m ;; k" := (bind m (fun x => k))
  (at level 100, m at next level, right associativity) : py_scope.
Notation "m ;; k" := (bind m (fun _ => k))
  (at level 100, right associativity) : py_scope.
Local Open Scope py_scope.

Definition raise {A} (e : exn) : M A := fun w => (Exc e, w).

(** [sys.exit(code)] *)
Definition sys_exit {A} (code : Z) : M A := raise (SystemExit code).

(** [try: body  except Exception: handler]; a [SystemExit] is not an
    [Exception] and passes through. *)
Definition try_except {A} (body : M A) (handler : M A) : M A :=
  fun w =>
    match body w with
    | (Exc Error, w') => handler w'
    | r => r
    end.

(** [print(line)]; standard output is taken to accept every text. *)
Definition print (line : str) : M unit :=
  fun w => (Val tt, mkWorld (fs w) (out w ++ [line]) (cmds w)).

(** [os.path.exists(p)] *)
Definition os_path_exists (p : str) : M bool :=
  fun w => (Val (bool_decide (is_Some (fs w !! p))), w).

(** What a file opened for reading in text mode (the default
    [newline=None]) makes of the line ends of the stored text: [\r\n] and
    a [\r] on its own are both read as [\n]. *)
Fixpoint universal_newlines (s : str) : str :=
  match s with
  | [] => []
  | c :: s' =>
      if c =? CR then
        NL :: match s' with
              | d :: s'' =>
                  if d =? NL then universal_newlines s''
                  else universal_newlines s'
              | [] => []
              end
      else c :: universal_newlines s'
  end.

(** A surrogate code point: UTF-8 does not encode it.  A [str] holds one
    when a command-line argument was not valid UTF-8. *)
Definition is_surrogate (c : N) : bool := (55296 <=? c) && (c <=? 57343).

(** The text can be encoded in UTF-8. *)
Definition encodable (text : str) : bool :=
  forallb (fun c => negb (is_surrogate c)) text.

(** [open(p, 'r', encoding='utf-8').read()] *)
Definition read_file (p : str) : M str :=
  fun w =>
    match fs w !! p with
    | Some text => (Val (universal_newlines text), w)
    | None => (Exc Error, w)
    end.

(** [with open(p, 'w', encoding='utf-8') as f: f.write(text)].  Opening
    the file empties it; [write] encodes the whole text before it stores
    any of it, and raises [UnicodeEncodeError] when it cannot: the file is
    then left empty. *)
Definition write_file (p : str) (text : str) : M unit :=
  fun w =>
    if encodable text then
      (Val tt, mkWorld (<[p := text]> (fs w)) (out w) (cmds w))
    else
      (Exc Error, mkWorld (<[p := []]> (fs w)) (out w) (cmds w)).

(** The process exit status of a run of [main]: 0 when it returns, the
    code given to [sys.exit], 1 for an exception nobody caught. *)
Definition exit_status {A} (r : res A) : Z :=
  match r with
  | Val _ => 0
  | Exc (SystemExit code) => code
  | Exc Error => 1
  end.

(** [os.path.basename] (POSIX): what follows the last slash. *)
Fixpoint basename_from (acc p : str) : str :=
  match p with
  | [] => acc
  | c :: p' =>
      if c =? 47 then basename_from [] p' else basename_from (acc ++ [c]) p'
  end.
Definition basename (p : str) : str := basename_from [] p.

(** [os.path.join(a, b)] (POSIX) *)
Definition path_join (a b : str) : str :=
  if startswith b (lit "/") then b
  else if negb (truthy a) || endswith a (lit "/") then a ++ b
  else a ++ lit "/" ++ b.

Definition QUOTE : N := 34.
Definition index_html : str := lit "index.html".

Section Env.
Variable env : environment.

(** [os.makedirs(p, exist_ok=True)]; directories are not part of [fs]. *)
Definition os_makedirs (p : str) : M unit :=
  if makedirs_ok env then ret tt else raise Error.

(** [shutil.copy2(src, dst)]: the stored contents are copied as they
    are. *)
Definition shutil_copy2 (src dst : str) : M unit :=
  fun w =>
    if copy_ok env src dst then
      match fs w !! src with
      | Some data =>
          (Val tt, mkWorld (<[dst := data]> (fs w)) (out w) (cmds w))
      | None => (Exc Error, w)
      end
    else (Exc Error, w).

(** [subprocess.run(command, shell=True, capture_output=True, text=True)]
    for a command that is started and whose output is read back: the run
    is recorded and its outcome is the environment's.  The runs in which
    [subprocess.run] raises something else than [CalledProcessError] are
    not covered: Python starts no command that holds a NUL character
    ([no_nul]). *)
Definition subprocess_run (command : str) : M completed :=
  fun w =>
    (Val (shell env (cmds w) command),
     mkWorld (fs w) (out w) (cmds w ++ [command])).
End Env.

(** [re.sub] and friends raise when they reject their argument. *)
Definition or_raise {A} (o : option A) : M A :=
  match o with
  | Some a => ret a
  | None => raise Error
  end.

Definition INDENT : str := lit "      ".

(** ** add_image.py *)

Module AddImage.

(** Lines 39-51: the new text of the array, from the stripped old one. *)
Definition new_array_content (array_content image_filename : str) : str :=
  if truthy array_content && negb (endswith array_content (lit ",")) then
    if truthy (strip array_content) then
      array_content ++ lit "," ++ [NL] ++ INDENT
        ++ [QUOTE] ++ image_filename ++ [QUOTE]
    else
      [NL] ++ INDENT ++ [QUOTE] ++ image_filename ++ [QUOTE] ++ [NL] ++ INDENT
  else
    if truthy array_content then
      array_content ++ [NL] ++ INDENT ++ [QUOTE] ++ image_filename ++ [QUOTE]
    else
      [NL] ++ INDENT ++ [QUOTE] ++ image_filename ++ [QUOTE] ++ [NL] ++ INDENT.

Definition add_image_to_html (image_filename html_file : str) : M bool :=
  ex <- os_path_exists html_file ;;
  if negb ex then
    print (lit "Error: " ++ html_file ++ lit " not found!") ;;
    ret false
  else
    content <- read_file html_file ;;
    match re_search pattern content with
    | None =>
        print (lit "Error: Could not find 'const images = [...];' in index.html") ;;
        ret false
    | Some m =>
        let array_content := strip (group (m_groups m) 2) in
        new_content <-
          or_raise (re_sub pattern
                      ([BACKSLASH; 49]
                         ++ new_array_content array_content image_filename
                         ++ [BACKSLASH; 51])
                      content) ;;
        write_file html_file new_content ;;
        ret true
    end.

Section Env.
Variable env : environment.

Definition run_git_command (command error_message : str) : M (bool * str) :=
  result <- subprocess_run env command ;;
  if returncode_zero result then ret (true, proc_stdout result)
  else
    print (lit "Error: " ++ error_message) ;;
    print (lit "Details: " ++ proc_stderr result) ;;
    ret (false, proc_stderr result).

Definition check_git_repo : M bool :=
  r <- run_git_command (lit "git rev-parse --git-dir")
         (lit "Not a git repository. Please initialize git first with 'git init'") ;;
  ret (fst r).

Definition commit_and_push_changes (image_filename : str)
           (commit_message : option str) : M bool :=
  repo <- check_git_repo ;;
  if negb repo then ret false
  else
    let commit_message :=
      match commit_message with
      | Some msg => if truthy msg then msg
                    else lit "Add image: " ++ image_filename
      | None => lit "Add image: " ++ image_filename
      end in
    print ([NL; 128228] ++ lit " Publishing to GitHub...") ;;
    print (lit "  " ++ [8594] ++ lit " Adding files to git...") ;;
    r <- run_git_command
           (lit "git add images/" ++ image_filename ++ lit " index.html")
           (lit "Failed to add files to git") ;;
    if negb (fst r) then ret false
    else
      print (lit "  " ++ [8594] ++ lit " Committing changes...") ;;
      r <- run_git_command
             (lit "git commit -m " ++ [QUOTE] ++ commit_message ++ [QUOTE])
             (lit "Failed to commit changes") ;;
      if negb (fst r) then
        r <- run_git_command (lit "git status --porcelain") [] ;;
        (if negb (truthy (strip (snd r))) then
           print (lit "  " ++ [8505]
                    ++ lit " No changes to commit (file may already be in repository)")
         else ret tt) ;;
        ret false
      else
        print (lit "  " ++ [8594] ++ lit " Pushing to GitHub...") ;;
        r <- run_git_command (lit "git push")
               (lit "Failed to push to GitHub. Make sure you have a remote repository set up.") ;;
        if fst r then
          print ([NL; 9989] ++ lit " Successfully published to GitHub!") ;;
          print (lit "   Your GitHub Pages site will update shortly.") ;;
          ret true
        else
          print ([NL; 8505; 65039] ++ lit "  Changes committed locally but not pushed.") ;;
          print (lit "   Run 'git push' manually or check your remote repository settings.") ;;
          ret false.

(** [argv] is [sys.argv]: the script's name, then its arguments.  The
    text of the exception caught around the copy is not modelled. *)
Definition main (argv : list str) : M unit :=
  (if (length argv <? 2)%nat then
     print (lit "Usage: python add_image.py <image_file_path> [commit_message]") ;;
     print ([NL] ++ lit "Example:") ;;
     print (lit "  python add_image.py photo.jpg") ;;
     print (lit "  python add_image.py photo.jpg 'Add vacation photo'") ;;
     sys_exit 1
   else ret tt) ;;
  let image_path := nth 1 argv [] in
  let commit_message :=
    if (2 <? length argv)%nat then Some (nth 2 argv []) else None in
  ex <- os_path_exists image_path ;;
  (if negb ex then
     print (lit "Error: Image file '" ++ image_path ++ lit "' not found!") ;;
     sys_exit 1
   else ret tt) ;;
  let images_folder := lit "images" in
  os_makedirs env images_folder ;;
  let image_filename := basename image_path in
  let destination := path_join images_folder image_filename in
  try_except
    (shutil_copy2 env image_path destination ;;
     print ([10003] ++ lit " Copied '" ++ image_filename ++ lit "' to '"
              ++ images_folder ++ lit "/' folder"))
    (print (lit "Error copying file: ") ;;
     sys_exit 1) ;;
  updated <- add_image_to_html image_filename index_html ;;
  (if updated then
     print ([10003] ++ lit " Added '" ++ image_filename ++ lit "' to index.html")
   else
     print (lit "Failed to update index.html") ;;
     sys_exit 1) ;;
  commit_and_push_changes image_filename commit_message ;;
  ret tt.
End Env.

End AddImage.

(** ** update.py *)

Module Update.

(** Lines 33-45. *)
Definition new_array_content (array_content image_filename : str) : str :=
  if truthy array_content && negb (endswith array_content (lit ",")) then
    if truthy (strip array_content) then
      array_content ++ lit "," ++ [NL] ++ INDENT
        ++ [QUOTE] ++ image_filename ++ [QUOTE]
    else
      [NL] ++ INDENT ++ [QUOTE] ++ image_filename ++ [QUOTE] ++ [NL] ++ INDENT
  else
    if truthy array_content then
      array_content ++ [NL] ++ INDENT ++ [QUOTE] ++ image_filename ++ [QUOTE]
    else
      [NL] ++ INDENT ++ [QUOTE] ++ image_filename ++ [QUOTE] ++ [NL] ++ INDENT.

Definition add_image_to_html (image_filename html_file : str) : M bool :=
  ex <- os_path_exists html_file ;;
  if negb ex then
    print (lit "Error: " ++ html_file ++ lit " not found!") ;;
    ret false
  else
    content <- read_file html_file ;;
    match re_search pattern content with
    | None =>
        print (lit "Error: Could not find 'const images = [...];' in index.html") ;;
        ret false
    | Some m =>
        let array_content := strip (group (m_groups m) 2) in
        new_content <-
          or_raise (re_sub pattern
                      ([BACKSLASH; 49]
                         ++ new_array_content array_content image_filename
                         ++ [BACKSLASH; 51])
                      content) ;;
        write_file html_file new_content ;;
        ret true
    end.

Section Env.
Variable env : environment.

Definition main (argv : list str) : M unit :=
  (if (length argv <? 2)%nat then
     print (lit "Usage: python update.py <image_file_path>") ;;
     sys_exit 1
   else ret tt) ;;
  let image_path := nth 1 argv [] in
  ex <- os_path_exists image_path ;;
  (if negb ex then
     print (lit "Error: Image file '" ++ image_path ++ lit "' not found!") ;;
     sys_exit 1
   else ret tt) ;;
  let images_folder := lit "images" in
  os_makedirs env images_folder ;;
  let image_filename := basename image_path in
  let destination := path_join images_folder image_filename in
  try_except
    (shutil_copy2 env image_path destination ;;
     print ([10003] ++ lit " Copied '" ++ image_filename ++ lit "' to '"
              ++ images_folder ++ lit "/' folder"))
    (print (lit "Error copying file: ") ;;
     sys_exit 1) ;;
  updated <- add_image_to_html image_filename index_html ;;
  (if updated then
     print ([10003] ++ lit " Added '" ++ image_filename ++ lit "' to index.html") ;;
     print ([NL] ++ lit "Done! Your image has been added successfully.")
   else
     print (lit "Failed to update index.html") ;;
     sys_exit 1).
End Env.

End Update.

(** ** The patch as a function on text

    The spec's [appendEntry(document, filename)]: the run of
    [add_image_to_html] in a world whose only file is the document.
    [Val (Some d)]: it returned [True] and left [d] in the file;
    [Val None]: it returned [False]; [Exc e]: it raised. *)
Definition appendEntry (document filename : str) : res (option str) :=
  match AddImage.add_image_to_html filename index_html
          (mkWorld {[ index_html := document ]} [] []) with
  | (Val true, w) => Val (fs w !! index_html)
  | (Val false, _) => Val None
  | (Exc e, _) => Exc e
  end.

(** ** Definitions used to state the properties *)

(** A line-end character: a carriage return or a line feed. *)
Definition newline (c : N) : bool := (c =? CR) || (c =? NL).

(** A text without a line-end character. *)
Definition no_newline (l : str) : bool := forallb (fun c => negb (newline c)) l.

(** A text without a carriage return: it is read as it is stored. *)
Definition no_cr (s : str) : bool := forallb (fun c => negb (c =? CR)) s.

(** The parts of a declaration as a read gives them. *)
Definition read_declaration (d : str * str * str) : str * str * str :=
  let '(o, b, t) := d in
  (universal_newlines o, universal_newlines b, universal_newlines t).

(** The closing token of the declaration. *)
Definition CLOSE : str := lit "];".

(** [s] without the literal [p] at its head. *)
Fixpoint strip_prefix (p s : str) : option str :=
  match p, s with
  | [], _ => Some s
  | c :: p', d :: s' => if c =? d then strip_prefix p' s' else None
  | _ :: _, [] => None
  end.

(** The text after [const\s+images\s*=\s*\[] at the head of [s]. *)
Definition lex_opening (s : str) : option str :=
  match strip_prefix (lit "const") s with
  | Some (c :: s1) =>
      if isspace c then
        match strip_prefix (lit "images") (lstrip s1) with
        | Some s2 =>
            match strip_prefix (lit "=") (lstrip s2) with
            | Some s3 => strip_prefix (lit "[") (lstrip s3)
            | None => None
            end
        | None => None
        end
      else None
  | _ => None
  end.

(** The text before the first [];] of [s], and the text after it. *)
Fixpoint find_close (s : str) : option (str * str) :=
  match strip_prefix CLOSE s with
  | Some t => Some ([], t)
  | None =>
      match s with
      | c :: s' =>
          match find_close s' with
          | Some (b, t) => Some (c :: b, t)
          | None => None
          end
      | [] => None
      end
  end.

(** The declaration at the head of [s]: its opening, its body and the text
    after its closing [];]. *)
Definition declaration (s : str) : option (str * str * str) :=
  match lex_opening s with
  | Some r =>
      match find_close r with
      | Some (b, t) => Some (take (length s - length r) s, b, t)
      | None => None
      end
  | None => None
  end.

(** The groups of a match with opening [o] and body [b]. *)
Definition pattern_groups (o b : str) : groups :=
  <[0 := o ++ b ++ CLOSE]> (<[3 := CLOSE]> (<[2 := b]> (<[1 := o]> ∅))).

(** The leftmost declaration of [s]: the text before it and its parts. *)
Fixpoint find_declaration (s : str) : option (str * (str * str * str)) :=
  match declaration s with
  | Some d => Some ([], d)
  | None =>
      match s with
      | c :: s' =>
          match find_declaration s' with
          | Some (p, d) => Some (c :: p, d)
          | None => None
          end
      | [] => None
      end
  end.

(** The replacement string the scripts hand to [re.sub]. *)
Definition replacement (new_array_content : str) : str :=
  [BACKSLASH; 49] ++ new_array_content ++ [BACKSLASH; 51].

(** A text is plain when [re.sub] takes it literally after [\1]: it holds
    no backslash ([no_backslash]) and does not begin with an ASCII digit. *)
Definition no_backslash (x : str) : bool :=
  forallb (fun c => negb (c =? BACKSLASH)) x.

(** See [no_backslash]. *)
Definition plain (x : str) : bool :=
  no_backslash x && match x with c :: _ => negb (is_digit c) | [] => true end.

(** The left bracket that ends an opening. *)
Definition BRACKET : N := 91.

(** [o] is an opening: the pattern's first group matches all of it. *)
Definition is_opening (o : str) : Prop := lex_opening o = Some [].

(** The opening as the page of the repository writes it. *)
Definition OPENING : str := lit "const images = [".

(** The body of the scenario's declaration. *)
Definition scenario_body : str :=
  [NL] ++ INDENT ++ [QUOTE] ++ lit "a.jpg" ++ [QUOTE] ++ [NL] ++ lit "    ".

(** The declaration before the patch. *)
Definition scenario_declaration : str := OPENING ++ scenario_body ++ CLOSE.

(** The declaration the spec expects after adding [b.jpg]. *)
Definition scenario_claimed : str :=
  OPENING ++ [NL] ++ INDENT ++ [QUOTE] ++ lit "a.jpg" ++ [QUOTE] ++ lit ","
    ++ [NL] ++ INDENT ++ [QUOTE] ++ lit "b.jpg" ++ [QUOTE]
    ++ [NL] ++ lit "    " ++ CLOSE.

(** The declaration the scripts write. *)
Definition scenario_patched : str :=
  OPENING ++ [QUOTE] ++ lit "a.jpg" ++ [QUOTE] ++ lit ","
    ++ [NL] ++ INDENT ++ [QUOTE] ++ lit "b.jpg" ++ [QUOTE] ++ CLOSE.

(** [occurrences s ms tail]: [ms] are the successive non-overlapping
    matches of the pattern in [s], each found by [re.search] in the text
    that follows the one before, and [tail] is the unmatched rest. *)
Inductive occurrences : str -> list Match -> str -> Prop :=
| occ_last (s : str) :
    re_search pattern s = None -> occurrences s [] s
| occ_next (s : str) (m : Match) (ms : list Match) (tail : str) :
    re_search pattern s = Some m ->
    occurrences (m_post m) ms tail ->
    occurrences s (m :: ms) tail.

(** A document with an empty declaration and a second one after it, and
    what adding [b.jpg] makes of it. *)
Definition two_declarations : str :=
  OPENING ++ CLOSE ++ lit " " ++ OPENING ++ [QUOTE] ++ lit "z" ++ [QUOTE]
    ++ CLOSE ++ lit "!".

Definition two_declarations_patched : str :=
  OPENING ++ ([NL] ++ INDENT ++ [QUOTE] ++ lit "b.jpg" ++ [QUOTE] ++ [NL] ++ INDENT)
    ++ CLOSE ++ lit " "
    ++ OPENING ++ ([NL] ++ INDENT ++ [QUOTE] ++ lit "b.jpg" ++ [QUOTE] ++ [NL] ++ INDENT)
    ++ CLOSE ++ lit "!".

(** A manifest whose only entry spells a letter with a JavaScript escape. *)
Definition escaped_manifest : str :=
  OPENING ++ [QUOTE] ++ lit "caf" ++ [BACKSLASH] ++ lit "u00e9.jpg" ++ [QUOTE] ++ lit "," ++ CLOSE.

(** The right bracket that begins the closing token. *)
Definition RBRACKET : N := 93.

(** The body of the manifest of a document: group 2 of the leftmost match. *)
Definition manifest_body (document : str) : option str :=
  (fun m => group (m_groups m) 2) <$> re_search pattern document.

(** [appendEntry] with [f1], then with [f2] on the document it wrote. *)
Definition appendEntry_twice (document f1 f2 : str) : res (option str) :=
  match appendEntry document f1 with
  | Val (Some d1) => appendEntry d1 f2
  | r => r
  end.

(** The manifest body of the document a patch wrote, if it wrote one. *)
Definition body_after (r : res (option str)) : option str :=
  match r with
  | Val (Some d) => manifest_body d
  | _ => None
  end.

(** Two quoted entries, the first followed by one comma, the second on a
    line of its own, nothing after it. *)
Definition two_entries (f1 f2 : str) : str :=
  [QUOTE] ++ f1 ++ [QUOTE] ++ lit "," ++ [NL] ++ INDENT ++ [QUOTE] ++ f2 ++ [QUOTE].

(** Both sides of an equation between concatenations, right-nested. *)
Ltac list_assoc :=
  repeat (progress (rewrite <- ?app_assoc; cbn [app])); try reflexivity.

(** The shell commands of the publisher. *)
Definition CMD_REV_PARSE : str := lit "git rev-parse --git-dir".
Definition CMD_STATUS : str := lit "git status --porcelain".
Definition CMD_PUSH : str := lit "git push".
Definition cmd_add (image_filename : str) : str :=
  lit "git add images/" ++ image_filename ++ lit " index.html".
Definition cmd_commit (message : str) : str :=
  lit "git commit -m " ++ [QUOTE] ++ message ++ [QUOTE].

(** The message the commit is made with. *)
Definition effective_message (image_filename : str) (commit_message : option str)
  : str :=
  match commit_message with
  | Some msg => if truthy msg then msg else lit "Add image: " ++ image_filename
  | None => lit "Add image: " ++ image_filename
  end.

(** Lines the publisher prints. *)
Definition LINE_PUBLISHING : str := [NL; 128228] ++ lit " Publishing to GitHub...".
Definition LINE_ADDING : str := lit "  " ++ [8594] ++ lit " Adding files to git...".
Definition LINE_COMMITTING : str := lit "  " ++ [8594] ++ lit " Committing changes...".
Definition LINE_COMMIT_FAILED : str := lit "Error: Failed to commit changes".
Definition LINE_NO_CHANGES : str :=
  lit "  " ++ [8505] ++ lit " No changes to commit (file may already be in repository)".

(** What [run_git_command] prints for a finished command, and the output
    it returns. *)
Definition failure_lines (error_message : str) (c : completed) : list str :=
  if returncode_zero c then []
  else [lit "Error: " ++ error_message; lit "Details: " ++ proc_stderr c].

Definition command_output (c : completed) : str :=
  if returncode_zero c then proc_stdout c else proc_stderr c.

(** One step of a run: unfold the primitives and reduce. *)
Ltac run :=
  unfold ret, print, raise, sys_exit;
  cbv beta iota zeta; cbn [fst snd fs out cmds negb].

(** An environment in which there is nothing to commit: [git commit] ends
    with a non-zero status and every other command succeeds, printing
    nothing. *)
Definition env_nothing_to_commit : environment :=
  mkEnv true (fun _ _ => true)
    (fun _ command =>
       if bool_decide (command = cmd_commit (lit "Add image: a.jpg"))
       then mkCompleted false (lit "nothing to commit, working tree clean") []
       else mkCompleted true [] []).

(** The world once the image is copied and the copy is announced. *)
Definition copied (w : world) (image_path content : str) : world :=
  mkWorld
    (<[path_join (lit "images") (basename image_path) := content]> (fs w))
    (out w ++ [[10003] ++ lit " Copied '" ++ basename image_path ++ lit "' to '"
                 ++ lit "images" ++ lit "/' folder"])
    (cmds w).

(** A working directory with a page and, outside it, an image. *)
Definition sample_world : world :=
  mkWorld (<[lit "/tmp/a.jpg" := lit "IMG"]>
             {[ index_html := lit "const images = [];" ]}) [] [].

(** An opening spelled with the given white space: after [const] (at least
    one character), after [images] and after [=]. *)
Definition opening_of (ws1 ws2 ws3 : str) : str :=
  lit "const" ++ ws1 ++ lit "images" ++ ws2 ++ lit "=" ++ ws3 ++ lit "[".

(** Every character is white space. *)
Definition blank (ws : str) : bool := forallb isspace ws.

(** More lines and messages of the publisher. *)
Definition MSG_NOT_A_REPO : str :=
  lit "Not a git repository. Please initialize git first with 'git init'".
Definition MSG_ADD_FAILED : str := lit "Failed to add files to git".
Definition MSG_COMMIT_FAILED : str := lit "Failed to commit changes".
Definition MSG_PUSH_FAILED : str :=
  lit "Failed to push to GitHub. Make sure you have a remote repository set up.".
Definition LINE_PUSHING : str := lit "  " ++ [8594] ++ lit " Pushing to GitHub...".
Definition LINES_PUBLISHED : list str :=
  [[NL; 9989] ++ lit " Successfully published to GitHub!";
   lit "   Your GitHub Pages site will update shortly."].
Definition LINES_NOT_PUSHED : list str :=
  [[NL; 8505; 65039] ++ lit "  Changes committed locally but not pushed.";
   lit "   Run 'git push' manually or check your remote repository settings."].

(** Outside a git repository: the repository check fails. *)
Definition env_no_repository : environment :=
  mkEnv true (fun _ _ => true)
    (fun _ _ => mkCompleted false [] (lit "fatal: not a git repository")).

(** A repository without a remote: every command succeeds but the push. *)
Definition env_no_remote : environment :=
  mkEnv true (fun _ _ => true)
    (fun _ command =>
       if bool_decide (command = CMD_PUSH)
       then mkCompleted false [] (lit "fatal: No configured push destination.")
       else mkCompleted true [] []).

(** A page without the declaration, and an image outside the folder. *)
Definition world_without_declaration : world :=
  mkWorld (<[lit "/tmp/a.jpg" := lit "IMG"]>
             {[ index_html := lit "<html></html>" ]}) [] [].

(** A file name between double quotes. *)
Definition quoted (f : str) : str := [QUOTE] ++ f ++ [QUOTE].

(** The quoted names, each but the last followed by a comma, a newline and
    the indentation. *)
Fixpoint entries (names : list str) : str :=
  match names with
  | [] => []
  | f :: rest =>
      match rest with
      | [] => quoted f
      | _ :: _ => quoted f ++ lit "," ++ [NL] ++ INDENT ++ entries rest
      end
  end.

(** [appendEntry] with each of the names in turn, each on the document the
    one before wrote; the first failure ends the series. *)
Definition appendEntry_all (document : str) (names : list str)
  : res (option str) :=
  fold_left
    (fun r f => match r with Val (Some d) => appendEntry d f | _ => r end)
    names (Val (Some document)).

(** A file name without a backslash, without the closing token and without
    a carriage return, that UTF-8 encodes. *)
Definition tame (f : str) : Prop :=
  no_backslash f = true /\ find_close f = None
  /\ no_cr f = true /\ encodable f = true.

(** A body that begins and ends with a double quote and holds neither a
    backslash nor the closing token. *)
Definition settled (e : str) : Prop :=
  exists x, e = QUOTE :: x ++ [QUOTE] /\ no_backslash x = true
            /\ find_close e = None.

(** A text without a NUL character: it can be part of a command line. *)
Definition no_nul (s : str) : bool := forallb (fun c => negb (c =? 0)) s.

(** * Properties *)

(** ** What the pattern matches, without backtracking *)

Section MatcherFacts.
Context {R : Type}.

Lemma strip_prefix_app p s t : strip_prefix p s = Some t -> s = p ++ t.
Proof.
  revert s. induction p as [|c p IH]; intros [|d s] H; simpl in *; try congruence.
  destruct (N.eqb_spec c d); [|discriminate]. subst. simpl. f_equal. auto.
Qed.

Lemma strip_prefix_complete p t : strip_prefix p (p ++ t) = Some t.
Proof. induction p as [|c p IH]; simpl; [done|]. by rewrite N.eqb_refl. Qed.

Lemma rmatch_rlit (l s : str) (g : groups) (k : str -> groups -> option R) :
  rmatch (rlit l) s g k =
  match strip_prefix l s with Some s' => k s' g | None => None end.
Proof.
  revert s. induction l as [|c l IH]; intros s; simpl; [done|].
  destruct s as [|d s]; [done|]. simpl.
  destruct (c =? d); [apply IH | done].
Qed.

Lemma star_greedy_space (s : str) (k : str -> option R) :
  (forall c s', isspace c = true -> k (c :: s') = None) ->
  star_greedy ASpace s k = k (lstrip s).
Proof.
  intros Hk. induction s as [|c s IH]; simpl; [done|].
  destruct (isspace c) eqn:Hc; [|done].
  rewrite IH. destruct (k (lstrip s)); [done|]. by apply Hk.
Qed.

Lemma star_lazy_close (s : str) (f : str -> str -> R) :
  star_lazy AAny s
    (fun s' => match strip_prefix CLOSE s' with
               | Some t => Some (f s' t) | None => None end) =
  match find_close s with
  | Some (b, t) => Some (f (CLOSE ++ t) t)
  | None => None
  end.
Proof.
  induction s as [|c s IH].
  - reflexivity.
  - cbn [star_lazy find_close atom_matches].
    destruct (strip_prefix CLOSE (c :: s)) as [t|] eqn:E.
    + by rewrite (strip_prefix_app _ _ _ E).
    + rewrite IH. by destruct (find_close s) as [[b t]|].
Qed.
End MatcherFacts.

Lemma find_close_app s b t : find_close s = Some (b, t) -> s = b ++ CLOSE ++ t.
Proof.
  revert b t. induction s as [|c s IH]; intros b t H.
  - discriminate.
  - cbn [find_close] in H.
    destruct (strip_prefix CLOSE (c :: s)) as [t'|] eqn:E.
    + inversion H; subst. pose proof (strip_prefix_app _ _ _ E) as E'. exact E'.
    + destruct (find_close s) as [[b' t']|]; [|discriminate].
      inversion H; subst. simpl. f_equal. by apply IH.
Qed.

Lemma lstrip_suffix s : exists w, s = w ++ lstrip s.
Proof.
  induction s as [|c s [w IH]]; [by exists []|]. simpl.
  destruct (isspace c); [|by exists []].
  exists (c :: w). simpl. by f_equal.
Qed.

Lemma lex_opening_app s r : lex_opening s = Some r -> exists o, s = o ++ r.
Proof.
  unfold lex_opening. intros H.
  destruct (strip_prefix (lit "const") s) as [[|c s1]|] eqn:E1; try discriminate.
  destruct (isspace c); [|discriminate].
  destruct (strip_prefix (lit "images") (lstrip s1)) as [s2|] eqn:E2; [|discriminate].
  destruct (strip_prefix (lit "=") (lstrip s2)) as [s3|] eqn:E3; [|discriminate].
  apply strip_prefix_app in E1, E2, E3, H.
  destruct (lstrip_suffix s1) as [w1 H1], (lstrip_suffix s2) as [w2 H2],
    (lstrip_suffix s3) as [w3 H3].
  exists (lit "const" ++ c :: w1 ++ lit "images" ++ w2 ++ lit "=" ++ w3 ++ lit "[").
  rewrite E1. rewrite H1 at 1. rewrite E2. rewrite H2 at 1. rewrite E3.
  rewrite H3 at 1. rewrite H.
  rewrite <- !app_assoc. cbn [app]. by rewrite <- !app_assoc.
Qed.

Lemma take_length_diff (o r : str) :
  take (length (o ++ r) - length r) (o ++ r) = o.
Proof.
  rewrite length_app.
  replace (length o + length r - length r)%nat with (length o) by lia.
  by rewrite take_app_length.
Qed.

Lemma isspace_not (c d : N) : isspace c = true -> isspace d = false -> (d =? c) = false.
Proof. intros Hc Hd. destruct (N.eqb_spec d c); [congruence|done]. Qed.

Lemma star_lazy_ext {R} a s (k k' : str -> option R) :
  (forall s', k s' = k' s') -> star_lazy a s k = star_lazy a s k'.
Proof.
  intros E. induction s as [|c s IH]; simpl; rewrite E; [done|].
  by rewrite IH.
Qed.

Lemma match_here_pattern (s : str) :
  match_here pattern s =
  match declaration s with
  | Some (o, b, t) => Some (pattern_groups o b, t)
  | None => None
  end.
Proof.
  unfold match_here, pattern, declaration, lex_opening.
  cbn [rmatch]. rewrite rmatch_rlit.
  destruct (strip_prefix (lit "const") s) as [[|c s1]|] eqn:E1; try done.
  cbn [atom_matches]. destruct (isspace c) eqn:Hc; [|done].
  rewrite star_greedy_space.
  2:{ intros d s' Hd. rewrite rmatch_rlit.
      change (lit "images") with (105 :: lit "mages"). cbn [strip_prefix].
      by rewrite (isspace_not d 105 Hd). }
  rewrite rmatch_rlit.
  destruct (strip_prefix (lit "images") (lstrip s1)) as [s2|] eqn:E2; [|done].
  rewrite star_greedy_space.
  2:{ intros d s' Hd. rewrite rmatch_rlit.
      change (lit "=") with [61]. cbn [strip_prefix].
      by rewrite (isspace_not d 61 Hd). }
  rewrite rmatch_rlit.
  destruct (strip_prefix (lit "=") (lstrip s2)) as [s3|] eqn:E3; [|done].
  rewrite star_greedy_space.
  2:{ intros d s' Hd. rewrite rmatch_rlit.
      change (lit "[") with [91]. cbn [strip_prefix].
      by rewrite (isspace_not d 91 Hd). }
  rewrite rmatch_rlit.
  destruct (strip_prefix (lit "[") (lstrip s3)) as [r|] eqn:E4; [|done].
  rewrite (star_lazy_ext _ _ _
    (fun s' => match strip_prefix CLOSE s' with
               | Some t =>
                   Some (<[0:=take (length s - length t) s]>
                           (<[3:=take (length s' - length t) s']>
                              (<[2:=take (length r - length s') r]>
                                 (<[1:=take (length s - length r) s]> ∅))), t)
               | None => None
               end)).
  2:{ intros s'. by rewrite rmatch_rlit. }
  rewrite (star_lazy_close r
    (fun s' t => (<[0:=take (length s - length t) s]>
                    (<[3:=take (length s' - length t) s']>
                       (<[2:=take (length r - length s') r]>
                          (<[1:=take (length s - length r) s]> ∅))), t))).
  destruct (find_close r) as [[b t]|] eqn:E5; [|done].
  assert (Ho : exists o, s = o ++ r).
  { apply lex_opening_app. unfold lex_opening. by rewrite E1, Hc, E2, E3. }
  destruct Ho as [o ->]. apply find_close_app in E5. subst r.
  unfold pattern_groups. do 3 f_equal.
  - rewrite take_length_diff.
    replace (o ++ b ++ CLOSE ++ t) with ((o ++ b ++ CLOSE) ++ t)
      by (by rewrite <- !app_assoc).
    by rewrite take_length_diff.
  - f_equal; [by rewrite take_length_diff|]. f_equal.
    by rewrite take_length_diff.
Qed.

Lemma declaration_app s o b t :
  declaration s = Some (o, b, t) -> s = o ++ b ++ CLOSE ++ t.
Proof.
  unfold declaration. intros H.
  destruct (lex_opening s) as [r|] eqn:E1; [|discriminate].
  destruct (find_close r) as [[b' t']|] eqn:E2; [|discriminate].
  inversion H; subst; clear H.
  destruct (lex_opening_app _ _ E1) as [o ->].
  rewrite take_length_diff. by rewrite (find_close_app _ _ _ E2).
Qed.

Lemma re_search_pattern (s : str) :
  re_search pattern s =
  match find_declaration s with
  | Some (p, (o, b, t)) => Some (mkMatch p (pattern_groups o b) t)
  | None => None
  end.
Proof.
  induction s as [|c s IH]; cbn [re_search find_declaration];
    rewrite match_here_pattern.
  - by destruct (declaration []) as [[[o b] t]|].
  - destruct (declaration (c :: s)) as [[[o b] t]|]; [done|].
    rewrite IH. by destruct (find_declaration s) as [[p [[o b] t]]|].
Qed.

Lemma find_declaration_app s p o b t :
  find_declaration s = Some (p, (o, b, t)) -> s = p ++ o ++ b ++ CLOSE ++ t.
Proof.
  revert p. induction s as [|c s IH]; intros p H; cbn [find_declaration] in H.
  - destruct (declaration []) as [d|] eqn:E; [|discriminate].
    inversion H; subst. by apply declaration_app in E.
  - destruct (declaration (c :: s)) as [d|] eqn:E.
    + inversion H; subst. by apply declaration_app in E.
    + destruct (find_declaration s) as [[p' d]|]; [|discriminate].
      inversion H; subst. simpl. f_equal. by apply IH.
Qed.

Lemma group_1 o b : group (pattern_groups o b) 1 = o.
Proof. reflexivity. Qed.
Lemma group_2 o b : group (pattern_groups o b) 2 = b.
Proof. reflexivity. Qed.
Lemma group_3 o b : group (pattern_groups o b) 3 = CLOSE.
Proof. reflexivity. Qed.
Lemma group_0 o b : group (pattern_groups o b) 0 = o ++ b ++ CLOSE.
Proof. reflexivity. Qed.

Lemma sub_loop_skip r tpl (w rest : str) :
  sub_loop r tpl (w ++ rest) (length w) = sub_loop r tpl rest 0.
Proof. induction w as [|c w IH]; [done|]. simpl. apply IH. Qed.

Lemma sub_loop_declaration tpl s o b t :
  declaration s = Some (o, b, t) ->
  sub_loop pattern tpl s 0 =
  expand tpl (pattern_groups o b) ++ sub_loop pattern tpl t 0.
Proof.
  intros H. pose proof (declaration_app _ _ _ _ H) as Hs.
  assert (exists c w, o ++ b ++ CLOSE = c :: w) as (c & w & Hw).
  { destruct o as [|c o]; [|by eauto].
    destruct b as [|c b]; [|by eauto]. by eexists _, _. }
  assert (Hs' : s = c :: w ++ t).
  { rewrite Hs. change (c :: w ++ t) with ((c :: w) ++ t).
    rewrite <- Hw. by rewrite <- !app_assoc. }
  rewrite Hs' in *. cbn [sub_loop].
  rewrite match_here_pattern, H.
  replace (length (c :: w ++ t) - length t)%nat with (S (length w)).
  2:{ simpl. rewrite length_app. lia. }
  by rewrite sub_loop_skip.
Qed.

Lemma sub_loop_no_declaration tpl c s :
  declaration (c :: s) = None ->
  sub_loop pattern tpl (c :: s) 0 = c :: sub_loop pattern tpl s 0.
Proof. intros H. cbn [sub_loop]. by rewrite match_here_pattern, H. Qed.

Lemma sub_loop_nil tpl : sub_loop pattern tpl [] 0 = [].
Proof. reflexivity. Qed.

Lemma sub_loop_found tpl s p o b t :
  find_declaration s = Some (p, (o, b, t)) ->
  sub_loop pattern tpl s 0 =
  p ++ expand tpl (pattern_groups o b) ++ sub_loop pattern tpl t 0.
Proof.
  revert p. induction s as [|c s IH]; intros p H; cbn [find_declaration] in H.
  - destruct (declaration []) as [d|] eqn:E; [|discriminate].
    inversion H; subst. by apply sub_loop_declaration.
  - destruct (declaration (c :: s)) as [d|] eqn:E.
    + inversion H; subst. by apply sub_loop_declaration.
    + destruct (find_declaration s) as [[p' d]|] eqn:E'; [|discriminate].
      inversion H; subst. rewrite sub_loop_no_declaration by done.
      simpl. f_equal. by apply IH.
Qed.

Lemma sub_loop_not_found tpl s :
  find_declaration s = None -> sub_loop pattern tpl s 0 = s.
Proof.
  induction s as [|c s IH]; intros H; [done|].
  cbn [find_declaration] in H.
  destruct (declaration (c :: s)) as [d|] eqn:E; [discriminate|].
  destruct (find_declaration s) as [[p' d]|] eqn:E'; [discriminate|].
  rewrite sub_loop_no_declaration by done. f_equal. by apply IH.
Qed.

Lemma add_image_to_html_run (image_filename html_file : str) (w : world) :
  AddImage.add_image_to_html image_filename html_file w =
  match fs w !! html_file with
  | None =>
      (Val false,
       mkWorld (fs w)
         (out w ++ [lit "Error: " ++ html_file ++ lit " not found!"]) (cmds w))
  | Some content =>
      match find_declaration (universal_newlines content) with
      | None =>
          (Val false,
           mkWorld (fs w)
             (out w ++ [lit "Error: Could not find 'const images = [...];' in index.html"])
             (cmds w))
      | Some (p, (o, b, t)) =>
          match re_sub pattern
                  (replacement (AddImage.new_array_content (strip b) image_filename))
                  (universal_newlines content) with
          | Some new_content =>
              if encodable new_content then
                (Val true,
                 mkWorld (<[html_file := new_content]> (fs w)) (out w) (cmds w))
              else
                (Exc Error,
                 mkWorld (<[html_file := []]> (fs w)) (out w) (cmds w))
          | None => (Exc Error, w)
          end
      end
  end.
Proof.
  unfold AddImage.add_image_to_html, bind, os_path_exists, read_file.
  destruct (fs w !! html_file) as [content|] eqn:E; [|done].
  simpl. rewrite E, re_search_pattern.
  destruct (find_declaration (universal_newlines content))
    as [[p [[o b] t]]|]; [|done].
  cbn [m_groups]. rewrite group_2. unfold replacement.
  destruct (re_sub _ _ _) as [new_content|]; [|done].
  unfold or_raise, ret, write_file. by destruct (encodable new_content).
Qed.

Lemma appendEntry_run (document filename : str) :
  appendEntry document filename =
  match find_declaration (universal_newlines document) with
  | None => Val None
  | Some (p, (o, b, t)) =>
      match re_sub pattern
              (replacement (AddImage.new_array_content (strip b) filename))
              (universal_newlines document) with
      | Some new_content =>
          if encodable new_content then Val (Some new_content) else Exc Error
      | None => Exc Error
      end
  end.
Proof.
  unfold appendEntry. rewrite add_image_to_html_run. cbn [fs].
  rewrite lookup_singleton_eq.
  destruct (find_declaration (universal_newlines document))
    as [[p [[o b] t]]|]; [|done].
  destruct (re_sub _ _ _) as [new_content|]; [|done].
  destruct (encodable new_content); [|done].
  cbn [fs]. by rewrite lookup_insert_eq.
Qed.

Lemma parse_template_literal (n : N) (x : str) :
  3 <= n -> no_backslash x = true ->
  parse_template n None (x ++ [BACKSLASH; 51]) = Some (map PLit x ++ [PGroup 3]).
Proof.
  intros Hn. induction x as [|c x IH]; intros Hx.
  - cbn. unfold addgroup. change (digit_val 51) with 3.
    destruct (N.leb_spec 3 n); [done|lia].
  - cbn [no_backslash forallb] in Hx. apply andb_true_iff in Hx as [Hc Hx].
    cbn [app parse_template]. apply negb_true_iff in Hc. rewrite Hc.
    cbn [map app]. by rewrite IH.
Qed.

Lemma parse_template_replacement (x : str) :
  plain x = true ->
  parse_template 3 None (replacement x)
  = Some (PGroup 1 :: map PLit x ++ [PGroup 3]).
Proof.
  unfold plain, replacement. intros H. apply andb_true_iff in H as [Hb Hd].
  pose proof (parse_template_literal 3 x ltac:(lia) Hb) as Hp.
  cbn [app parse_template]. rewrite N.eqb_refl.
  change (49 =? 103) with false. change (49 =? 48) with false.
  change (is_digit 49) with true. cbv iota.
  destruct x as [|c x].
  - cbn [app]. change (is_digit BACKSLASH) with false. cbv iota.
    cbn [app] in Hp. rewrite Hp. reflexivity.
  - cbn [app]. apply negb_true_iff in Hd. rewrite Hd.
    cbn [app] in Hp. rewrite Hp. reflexivity.
Qed.

Lemma expand_literal (x : str) (g : groups) :
  expand (PGroup 1 :: map PLit x ++ [PGroup 3]) g = group g 1 ++ x ++ group g 3.
Proof.
  unfold expand. cbn [flat_map]. f_equal. rewrite flat_map_app. f_equal.
  - induction x as [|c x IH]; [done|]. simpl. by f_equal.
  - cbn. by rewrite app_nil_r.
Qed.

(** ** Facts about [strip] and [endswith] *)

Lemma lstrip_nonspace (c : N) (s : str) :
  isspace c = false -> lstrip (c :: s) = c :: s.
Proof. intros H. simpl. by rewrite H. Qed.

Lemma lstrip_spaces (ws s : str) :
  forallb isspace ws = true -> lstrip (ws ++ s) = lstrip s.
Proof.
  induction ws as [|c ws IH]; intros H; [done|].
  cbn [forallb] in H. apply andb_true_iff in H as [Hc H].
  cbn [app lstrip]. rewrite Hc. by apply IH.
Qed.

Lemma rstrip_snoc_nonspace (s : str) (c : N) :
  isspace c = false -> rstrip (s ++ [c]) = s ++ [c].
Proof.
  intros H. unfold rstrip. rewrite rev_app_distr. cbn [rev app].
  rewrite lstrip_nonspace by done.
  change (c :: rev s) with ([c] ++ rev s).
  by rewrite rev_app_distr, rev_involutive.
Qed.

Lemma rstrip_spaces (s ws : str) :
  forallb isspace ws = true -> rstrip (s ++ ws) = rstrip s.
Proof.
  intros H. unfold rstrip. rewrite rev_app_distr.
  rewrite lstrip_spaces; [done|].
  rewrite forallb_forall in *. intros x Hx. apply H. by apply in_rev.
Qed.

(** A text that begins and ends with a character that is not a space is
    its own [strip]. *)
Lemma strip_delimited (c d : N) (s : str) :
  isspace c = false -> isspace d = false ->
  strip (c :: s ++ [d]) = c :: s ++ [d].
Proof.
  intros Hc Hd. unfold strip. rewrite lstrip_nonspace by done.
  change (c :: s ++ [d]) with ((c :: s) ++ [d]).
  by apply rstrip_snoc_nonspace.
Qed.

Lemma strip_padded (ws1 ws2 : str) (c d : N) (s : str) :
  forallb isspace ws1 = true -> forallb isspace ws2 = true ->
  isspace c = false -> isspace d = false ->
  strip (ws1 ++ (c :: s ++ [d]) ++ ws2) = c :: s ++ [d].
Proof.
  intros H1 H2 Hc Hd. unfold strip. rewrite lstrip_spaces by done.
  cbn [app]. rewrite lstrip_nonspace by done.
  change (c :: (s ++ [d]) ++ ws2) with ((c :: s ++ [d]) ++ ws2).
  rewrite rstrip_spaces by done.
  change (c :: s ++ [d]) with ((c :: s) ++ [d]).
  by apply rstrip_snoc_nonspace.
Qed.

Lemma endswith_snoc (s : str) (c d : N) :
  endswith (s ++ [c]) [d] = (d =? c).
Proof.
  unfold endswith. rewrite rev_app_distr. cbn [rev app startswith].
  by destruct (d =? c).
Qed.

Lemma truthy_strip_nonempty (s : str) :
  truthy (strip s) = true -> exists x c, strip s = x ++ [c] /\ isspace c = false.
Proof.
  unfold strip, rstrip. intros H.
  destruct (lstrip (rev (lstrip s))) as [|c l] eqn:E; [done|].
  exists (rev l), c. split; [done|].
  clear H. revert E. generalize (rev (lstrip s)). intros u.
  induction u as [|a u IH]; simpl; [done|].
  destruct (isspace a) eqn:Ha; [done|]. intros [= -> ->]. done.
Qed.

(** ** The opening is read up to its bracket and no further *)

Lemma strip_prefix_local (l w r : str) :
  BRACKET ∉ l -> BRACKET ∈ w ->
  strip_prefix l (w ++ r) = (fun q => q ++ r) <$> strip_prefix l w
  /\ forall q, strip_prefix l w = Some q -> BRACKET ∈ q.
Proof.
  revert w. induction l as [|c l IH]; intros w Hl Hw.
  - split; [done|]. by intros q [= <-].
  - destruct w as [|d w]; [by apply elem_of_nil in Hw|].
    cbn [app strip_prefix]. destruct (N.eqb_spec c d) as [->|Hcd].
    + apply IH.
      * intros H. apply Hl. by right.
      * apply elem_of_cons in Hw as [Hw|Hw]; [|done].
        exfalso. apply Hl. rewrite Hw. by left.
    + split; [done|]. by intros q [=].
Qed.

Lemma lstrip_local (w r : str) :
  BRACKET ∈ w -> lstrip (w ++ r) = lstrip w ++ r /\ BRACKET ∈ lstrip w.
Proof.
  induction w as [|c w IH]; intros Hw; [by apply elem_of_nil in Hw|].
  cbn [app lstrip]. destruct (isspace c) eqn:Hc; [|done].
  apply IH. apply elem_of_cons in Hw as [Hw|Hw]; [|done].
  subst c. discriminate.
Qed.

Lemma lex_opening_local (w r : str) :
  BRACKET ∈ w -> lex_opening (w ++ r) = (fun q => q ++ r) <$> lex_opening w.
Proof.
  intros Hw. unfold lex_opening.
  destruct (strip_prefix_local (lit "const") w r) as [E1 B1]; [|done|].
  { by vm_compute; intros H; repeat (apply elem_of_cons in H as [H|H]; [done|]);
      apply elem_of_nil in H. }
  rewrite E1. destruct (strip_prefix (lit "const") w) as [q1|]; [|done].
  specialize (B1 q1 eq_refl). cbn [fmap option_fmap option_map].
  destruct q1 as [|c q1]; [by apply elem_of_nil in B1|].
  cbn [app]. destruct (isspace c) eqn:Hc; [|done].
  apply elem_of_cons in B1 as [B1|B1]; [subst c; discriminate|].
  destruct (lstrip_local q1 r B1) as [E2 B2]. rewrite E2.
  destruct (strip_prefix_local (lit "images") (lstrip q1) r) as [E3 B3]; [|done|].
  { by vm_compute; intros H; repeat (apply elem_of_cons in H as [H|H]; [done|]);
      apply elem_of_nil in H. }
  rewrite E3. destruct (strip_prefix (lit "images") (lstrip q1)) as [q2|]; [|done].
  specialize (B3 q2 eq_refl). cbn [fmap option_fmap option_map].
  destruct (lstrip_local q2 r B3) as [E4 B4]. rewrite E4.
  destruct (strip_prefix_local (lit "=") (lstrip q2) r) as [E5 B5]; [|done|].
  { by vm_compute; intros H; repeat (apply elem_of_cons in H as [H|H]; [done|]);
      apply elem_of_nil in H. }
  rewrite E5. destruct (strip_prefix (lit "=") (lstrip q2)) as [q3|]; [|done].
  specialize (B5 q3 eq_refl). cbn [fmap option_fmap option_map].
  destruct (lstrip_local q3 r B5) as [E6 B6]. rewrite E6.
  destruct (lstrip q3) as [|d q4]; [by apply elem_of_nil in B6|].
  change (lit "[") with [BRACKET]. cbn [app strip_prefix].
  by destruct (BRACKET =? d).
Qed.

Lemma lex_opening_bracket (s r : str) :
  lex_opening s = Some r -> exists o, s = (o ++ [BRACKET]) ++ r.
Proof.
  unfold lex_opening. intros H.
  destruct (strip_prefix (lit "const") s) as [[|c s1]|] eqn:E1; try discriminate.
  destruct (isspace c); [|discriminate].
  destruct (strip_prefix (lit "images") (lstrip s1)) as [s2|] eqn:E2; [|discriminate].
  destruct (strip_prefix (lit "=") (lstrip s2)) as [s3|] eqn:E3; [|discriminate].
  apply strip_prefix_app in E1, E2, E3, H.
  destruct (lstrip_suffix s1) as [w1 H1], (lstrip_suffix s2) as [w2 H2],
    (lstrip_suffix s3) as [w3 H3].
  exists (lit "const" ++ c :: w1 ++ lit "images" ++ w2 ++ lit "=" ++ w3).
  rewrite E1. rewrite H1 at 1. rewrite E2. rewrite H2 at 1. rewrite E3.
  rewrite H3 at 1. rewrite H. change (lit "[") with [BRACKET].
  rewrite <- !app_assoc. cbn [app]. by rewrite <- !app_assoc.
Qed.

Lemma lex_opening_split (o r : str) :
  lex_opening (o ++ r) = Some r <-> is_opening o.
Proof.
  unfold is_opening. split; intros H.
  - destruct (lex_opening_bracket _ _ H) as [o' Ho].
    apply app_inv_tail in Ho. subst o.
    rewrite lex_opening_local in H by (apply elem_of_app; right; by left).
    destruct (lex_opening (o' ++ [BRACKET])) as [q|]; [|discriminate].
    cbn in H. injection H as H. f_equal.
    apply (f_equal length) in H. rewrite length_app in H.
    destruct q; [done|]. simpl in H. lia.
  - destruct (lex_opening_bracket _ _ H) as [o' Ho].
    rewrite app_nil_r in Ho. subst o.
    rewrite lex_opening_local by (apply elem_of_app; right; by left).
    by rewrite H.
Qed.

Lemma find_close_first (b t : str) :
  find_close b = None -> find_close (b ++ CLOSE ++ t) = Some (b, t).
Proof.
  induction b as [|c b IH]; intros H.
  - cbn [app]. destruct t; reflexivity.
  - cbn [find_close] in H.
    destruct (strip_prefix CLOSE (c :: b)) as [t'|] eqn:E; [discriminate|].
    destruct (find_close b) as [[b' t']|] eqn:E'; [discriminate|].
    cbn [app find_close]. rewrite IH by done.
    assert (strip_prefix CLOSE (c :: b ++ CLOSE ++ t) = None) as ->; [|done].
    revert E. change CLOSE with [93; 59]. cbn [strip_prefix].
    destruct (93 =? c); [|done].
    destruct b as [|d b]; [done|]. cbn [app]. by destruct (59 =? d).
Qed.

Lemma declaration_intro (o b t : str) :
  is_opening o -> find_close b = None ->
  declaration (o ++ b ++ CLOSE ++ t) = Some (o, b, t).
Proof.
  intros Ho Hb. unfold declaration.
  apply (lex_opening_split o (b ++ CLOSE ++ t)) in Ho. rewrite Ho.
  rewrite find_close_first by done. by rewrite take_length_diff.
Qed.

Lemma declaration_inv (s o b t : str) :
  declaration s = Some (o, b, t) ->
  s = o ++ b ++ CLOSE ++ t /\ is_opening o
  /\ find_close (b ++ CLOSE ++ t) = Some (b, t).
Proof.
  intros H. pose proof (declaration_app _ _ _ _ H) as Hs. split; [done|].
  unfold declaration in H.
  destruct (lex_opening s) as [r|] eqn:E1; [|discriminate].
  destruct (find_close r) as [[b' t']|] eqn:E2; [|discriminate].
  injection H as Ho -> ->.
  destruct (lex_opening_app _ _ E1) as [o' Ho'].
  subst s. rewrite Ho' in Ho. rewrite take_length_diff in Ho. subst o'.
  apply app_inv_head in Ho'. subst r.
  split; [|done]. by apply (lex_opening_split o (b ++ CLOSE ++ t)).
Qed.

Lemma find_declaration_inv (s p : str) (d : str * str * str) :
  find_declaration s = Some (p, d) ->
  exists rest, s = p ++ rest /\ declaration rest = Some d.
Proof.
  revert p. induction s as [|c s IH]; intros p H; cbn [find_declaration] in H.
  - destruct (declaration []) as [d'|] eqn:E; [|discriminate].
    injection H as <- <-. by exists [].
  - destruct (declaration (c :: s)) as [d'|] eqn:E.
    + injection H as <- <-. by exists (c :: s).
    + destruct (find_declaration s) as [[p' d']|]; [|discriminate].
      injection H as <- <-. destruct (IH p' eq_refl) as (rest & -> & Hr).
      by exists rest.
Qed.

(** ** The three cases of the new array text *)

Lemma lstrip_snoc_nonspace (x : str) (c : N) :
  isspace c = false -> exists y, lstrip (x ++ [c]) = y ++ [c].
Proof.
  intros Hc. induction x as [|a x [y IH]].
  - exists []. simpl. by rewrite Hc.
  - cbn [app lstrip]. destruct (isspace a).
    + by exists y.
    + by exists (a :: x).
Qed.

Lemma truthy_snoc (x : str) (c : N) : truthy (x ++ [c]) = true.
Proof. by destruct x. Qed.

Lemma truthy_strip_strip (s : str) :
  truthy (strip s) = true -> truthy (strip (strip s)) = true.
Proof.
  intros H. destruct (truthy_strip_nonempty s H) as (x & c & -> & Hc).
  unfold strip at 1. destruct (lstrip_snoc_nonspace x c Hc) as [y ->].
  rewrite rstrip_snoc_nonspace by done. apply truthy_snoc.
Qed.

(** On a stripped text the branch structure of lines 40-51 comes down to
    three cases: the spec's append algorithm. *)
Lemma new_array_content_strip (s image_filename : str) :
  AddImage.new_array_content (strip s) image_filename =
  if truthy (strip s) then
    if endswith (strip s) (lit ",") then
      strip s ++ [NL] ++ INDENT ++ [QUOTE] ++ image_filename ++ [QUOTE]
    else
      strip s ++ lit "," ++ [NL] ++ INDENT ++ [QUOTE] ++ image_filename ++ [QUOTE]
  else
    [NL] ++ INDENT ++ [QUOTE] ++ image_filename ++ [QUOTE] ++ [NL] ++ INDENT.
Proof.
  unfold AddImage.new_array_content.
  destruct (truthy (strip s)) eqn:Ht; [|done].
  rewrite (truthy_strip_strip s Ht).
  by destruct (endswith (strip s) (lit ",")).
Qed.

(** ** Line ends: what reading a file does to its text *)

Lemma universal_newlines_crlf (s : str) :
  universal_newlines (CR :: NL :: s) = NL :: universal_newlines s.
Proof. reflexivity. Qed.

Lemma universal_newlines_other (c : N) (s : str) :
  c <> CR -> universal_newlines (c :: s) = c :: universal_newlines s.
Proof.
  intros Hc. cbn [universal_newlines]. apply N.eqb_neq in Hc. by rewrite Hc.
Qed.

Lemma universal_newlines_cr (s : str) :
  startswith s [NL] = false ->
  universal_newlines (CR :: s) = NL :: universal_newlines s.
Proof.
  destruct s as [|d s]; [done|]. cbn [startswith]. rewrite andb_true_r.
  intros Hd. rewrite N.eqb_sym in Hd.
  change (universal_newlines (CR :: d :: s))
    with (NL :: if d =? NL then universal_newlines s
                else universal_newlines (d :: s)).
  by rewrite Hd.
Qed.

(** Induction along the line ends of a text. *)
Lemma newlines_ind (P : str -> Prop) :
  P [] ->
  (forall s, P s -> P (CR :: NL :: s)) ->
  (forall s, startswith s [NL] = false -> P s -> P (CR :: s)) ->
  (forall c s, c <> CR -> P s -> P (c :: s)) ->
  forall s, P s.
Proof.
  intros H0 H1 H2 H3 s.
  enough (H : P s /\ forall c, P (c :: s)) by apply H.
  induction s as [|d s [IHs IHc]].
  - split; [done|]. intros c. destruct (N.eq_dec c CR) as [->|Hc].
    + by apply H2.
    + by apply H3.
  - split; [apply IHc|]. intros c. destruct (N.eq_dec c CR) as [->|Hc].
    + destruct (N.eq_dec d NL) as [->|Hd].
      * by apply H1.
      * apply H2; [|apply IHc]. cbn [startswith]. rewrite andb_true_r.
        apply N.eqb_neq. congruence.
    + apply H3; [done|apply IHc].
Qed.

Lemma newline_false (c : N) : newline c = false -> c <> CR /\ c <> NL.
Proof.
  unfold newline. intros H. apply orb_false_iff in H as [H1 H2].
  by apply N.eqb_neq in H1, H2.
Qed.

Lemma isspace_newline (c : N) : isspace c = false -> newline c = false.
Proof.
  unfold newline. destruct (N.eqb_spec c CR) as [->|_]; [done|].
  by destruct (N.eqb_spec c NL) as [->|_].
Qed.

Lemma startswith_newline (c : N) (y : str) :
  newline c = false -> startswith (c :: y) [NL] = false.
Proof.
  intros H. apply newline_false in H as [_ H]. cbn [startswith].
  rewrite andb_true_r. apply N.eqb_neq. congruence.
Qed.

(** Reading is done piece by piece wherever a carriage return is not
    separated from its line feed. *)
Lemma universal_newlines_app_r (x y : str) :
  startswith y [NL] = false ->
  universal_newlines (x ++ y) = universal_newlines x ++ universal_newlines y.
Proof.
  intros Hy. induction x as [|x IH|x Hx IH|c x Hc IH] using newlines_ind.
  - done.
  - cbn [app]. by rewrite !universal_newlines_crlf, IH.
  - cbn [app]. rewrite !universal_newlines_cr, IH; [done..|].
    by destruct x.
  - cbn [app]. by rewrite !universal_newlines_other, IH.
Qed.

Lemma universal_newlines_app_l (x y : str) (c : N) :
  newline c = false ->
  universal_newlines ((x ++ [c]) ++ y)
  = universal_newlines (x ++ [c]) ++ universal_newlines y.
Proof.
  intros Hc. pose proof (newline_false _ Hc) as [Hc1 Hc2].
  induction x as [|x IH|x Hx IH|d x Hd IH] using newlines_ind.
  - cbn [app]. by rewrite !universal_newlines_other.
  - cbn [app]. by rewrite !universal_newlines_crlf, IH.
  - cbn [app] in *. rewrite !universal_newlines_cr, IH; [done| |].
    + destruct x; [by apply startswith_newline|done].
    + destruct x; [by apply startswith_newline|done].
  - cbn [app] in *. by rewrite !universal_newlines_other, IH.
Qed.

Lemma universal_newlines_snoc (x : str) (c : N) :
  newline c = false ->
  universal_newlines (x ++ [c]) = universal_newlines x ++ [c].
Proof.
  intros Hc. rewrite universal_newlines_app_r by by apply startswith_newline.
  pose proof (newline_false _ Hc) as [Hc1 _].
  by rewrite (universal_newlines_other c []).
Qed.

Lemma universal_newlines_no_cr (s : str) :
  no_cr s = true -> universal_newlines s = s.
Proof.
  induction s as [|c s IH]; [done|]. cbn [no_cr forallb]. intros H.
  apply andb_true_iff in H as [Hc Hs]. apply negb_true_iff, N.eqb_neq in Hc.
  by rewrite universal_newlines_other, IH.
Qed.

Lemma no_cr_universal_newlines (s : str) : no_cr (universal_newlines s) = true.
Proof.
  induction s as [|s IH|s Hs IH|c s Hc IH] using newlines_ind.
  - done.
  - by rewrite universal_newlines_crlf.
  - by rewrite universal_newlines_cr.
  - rewrite universal_newlines_other by done. cbn [no_cr forallb].
    apply N.eqb_neq in Hc. by rewrite Hc.
Qed.

Lemma no_cr_app (x y : str) : no_cr (x ++ y) = no_cr x && no_cr y.
Proof. apply forallb_app. Qed.

(** *** The pattern is blind to how line ends are stored *)

Lemma strip_prefix_newlines (l x : str) :
  no_newline l = true ->
  strip_prefix l (universal_newlines x)
  = universal_newlines <$> strip_prefix l x.
Proof.
  revert x. induction l as [|c l IH]; intros x Hl; [done|].
  cbn [no_newline forallb] in Hl. apply andb_true_iff in Hl as [Hc Hl].
  apply negb_true_iff in Hc. pose proof (newline_false _ Hc) as [Hc1 Hc2].
  destruct x as [|d x]; [done|].
  destruct (N.eq_dec d CR) as [->|Hd].
  - assert (exists r, universal_newlines (CR :: x) = NL :: r) as [r ->].
    { destruct x as [|e x]; [by eexists|].
      change (universal_newlines (CR :: e :: x))
        with (NL :: if e =? NL then universal_newlines x
                    else universal_newlines (e :: x)).
      by eexists. }
    cbn [strip_prefix]. apply N.eqb_neq in Hc1, Hc2. by rewrite Hc1, Hc2.
  - rewrite universal_newlines_other by done. cbn [strip_prefix].
    destruct (c =? d); [by apply IH|done].
Qed.

Lemma lstrip_newlines (x : str) :
  lstrip (universal_newlines x) = universal_newlines (lstrip x).
Proof.
  induction x as [|x IH|x Hx IH|c x Hc IH] using newlines_ind.
  - done.
  - rewrite universal_newlines_crlf.
    change (lstrip (NL :: universal_newlines x))
      with (lstrip (universal_newlines x)).
    by change (lstrip (CR :: NL :: x)) with (lstrip x).
  - rewrite universal_newlines_cr by done.
    change (lstrip (NL :: universal_newlines x))
      with (lstrip (universal_newlines x)).
    by change (lstrip (CR :: x)) with (lstrip x).
  - rewrite universal_newlines_other by done. cbn [lstrip].
    destruct (isspace c); [done|]. by rewrite universal_newlines_other.
Qed.

(** The first character as read, and what follows it. *)
Lemma universal_newlines_cons (c : N) (s : str) :
  exists c' r,
    universal_newlines (c :: s) = c' :: r
    /\ isspace c' = isspace c
    /\ lstrip r = universal_newlines (lstrip s).
Proof.
  destruct (N.eq_dec c CR) as [->|Hc].
  - destruct s as [|d s]; [by exists NL, []|].
    destruct (N.eq_dec d NL) as [->|Hd].
    + exists NL, (universal_newlines s). rewrite universal_newlines_crlf.
      split; [done|]. split; [done|]. by rewrite lstrip_newlines.
    + exists NL, (universal_newlines (d :: s)).
      rewrite universal_newlines_cr.
      * split; [done|]. split; [done|]. by rewrite lstrip_newlines.
      * cbn [startswith]. rewrite andb_true_r. apply N.eqb_neq. congruence.
  - exists c, (universal_newlines s). rewrite universal_newlines_other by done.
    split; [done|]. split; [done|]. by rewrite lstrip_newlines.
Qed.

Lemma lex_opening_newlines (x : str) :
  lex_opening (universal_newlines x) = universal_newlines <$> lex_opening x.
Proof.
  unfold lex_opening. rewrite strip_prefix_newlines by reflexivity.
  destruct (strip_prefix (lit "const") x) as [[|c s1]|]; [done| |done].
  cbn [fmap option_fmap option_map].
  destruct (universal_newlines_cons c s1) as (c' & r & -> & Hc & Hr).
  rewrite Hc. destruct (isspace c); [|done].
  rewrite Hr, strip_prefix_newlines by reflexivity.
  destruct (strip_prefix (lit "images") (lstrip s1)) as [s2|]; [|done].
  cbn [fmap option_fmap option_map].
  rewrite lstrip_newlines, strip_prefix_newlines by reflexivity.
  destruct (strip_prefix (lit "=") (lstrip s2)) as [s3|]; [|done].
  cbn [fmap option_fmap option_map].
  by rewrite lstrip_newlines, strip_prefix_newlines.
Qed.

Lemma find_close_newlines (r : str) :
  find_close (universal_newlines r)
  = prod_map universal_newlines universal_newlines <$> find_close r.
Proof.
  induction r as [|r IH|r Hr IH|c r Hc IH] using newlines_ind.
  - done.
  - rewrite universal_newlines_crlf.
    change (find_close (NL :: universal_newlines r))
      with (match find_close (universal_newlines r) with
            | Some (b, t) => Some (NL :: b, t)
            | None => None
            end).
    change (find_close (CR :: NL :: r))
      with (match match find_close r with
                  | Some (b, t) => Some (NL :: b, t)
                  | None => None
                  end with
            | Some (b, t) => Some (CR :: b, t)
            | None => None
            end).
    rewrite IH. by destruct (find_close r) as [[b t]|].
  - rewrite universal_newlines_cr by done.
    change (find_close (NL :: universal_newlines r))
      with (match find_close (universal_newlines r) with
            | Some (b, t) => Some (NL :: b, t)
            | None => None
            end).
    change (find_close (CR :: r))
      with (match find_close r with
            | Some (b, t) => Some (CR :: b, t)
            | None => None
            end).
    rewrite IH. destruct (find_close r) as [[b t]|] eqn:Hb; [|done].
    cbn [fmap option_fmap option_map prod_map fst snd]. f_equal. f_equal.
    rewrite universal_newlines_cr; [done|].
    apply find_close_app in Hb. subst r. by destruct b.
  - rewrite universal_newlines_other by done. cbn [find_close].
    rewrite <- (universal_newlines_other c r) by done.
    rewrite strip_prefix_newlines by reflexivity.
    destruct (strip_prefix CLOSE (c :: r)) as [t|]; [done|].
    cbn [fmap option_fmap option_map]. rewrite IH.
    destruct (find_close r) as [[b t]|]; [|done].
    cbn [fmap option_fmap option_map prod_map fst snd].
    by rewrite universal_newlines_other.
Qed.

Lemma newline_bracket : newline BRACKET = false.
Proof. reflexivity. Qed.

Lemma declaration_newlines (x : str) :
  declaration (universal_newlines x) = read_declaration <$> declaration x.
Proof.
  unfold declaration. rewrite lex_opening_newlines.
  destruct (lex_opening x) as [r|] eqn:Hr; [|done].
  cbn [fmap option_fmap option_map]. rewrite find_close_newlines.
  destruct (find_close r) as [[b t]|]; [|done].
  cbn [fmap option_fmap option_map prod_map fst snd read_declaration].
  destruct (lex_opening_bracket _ _ Hr) as [o ->].
  rewrite (universal_newlines_app_l o r BRACKET newline_bracket).
  by rewrite !take_length_diff.
Qed.

Lemma declaration_newline (c : N) (s : str) :
  newline c = true -> declaration (c :: s) = None.
Proof.
  unfold newline. intros H. apply orb_true_iff in H as [H|H];
    apply N.eqb_eq in H; by subst c.
Qed.

(** The leftmost declaration of the text read is the leftmost declaration
    of the text stored, read. *)
Lemma find_declaration_newlines (s : str) :
  find_declaration (universal_newlines s)
  = prod_map universal_newlines read_declaration <$> find_declaration s.
Proof.
  induction s as [|s IH|s Hs IH|c s Hc IH] using newlines_ind.
  - done.
  - rewrite universal_newlines_crlf. cbn [find_declaration].
    rewrite !declaration_newline by done. rewrite IH.
    destruct (find_declaration s) as [[p d]|]; [|done].
    by cbn [fmap option_fmap option_map prod_map fst snd].
  - rewrite universal_newlines_cr by done. cbn [find_declaration].
    rewrite !declaration_newline by done. rewrite IH.
    destruct (find_declaration s) as [[p [[o b] t]]|] eqn:Hd; [|done].
    cbn [fmap option_fmap option_map prod_map fst snd]. f_equal. f_equal.
    rewrite universal_newlines_cr; [done|].
    apply find_declaration_app in Hd. subst s.
    destruct p; [|done]. cbn [app] in *.
    destruct o; [by destruct b|done].
  - rewrite universal_newlines_other by done. cbn [find_declaration].
    rewrite <- (universal_newlines_other c s) by done.
    rewrite declaration_newlines.
    destruct (declaration (c :: s)) as [d|]; [done|].
    cbn [fmap option_fmap option_map]. rewrite IH.
    destruct (find_declaration s) as [[p d]|]; [|done].
    cbn [fmap option_fmap option_map prod_map fst snd].
    by rewrite universal_newlines_other.
Qed.

Lemma find_declaration_read (s p o b t : str) :
  find_declaration s = Some (p, (o, b, t)) ->
  find_declaration (universal_newlines s)
  = Some (universal_newlines p,
          (universal_newlines o, universal_newlines b, universal_newlines t)).
Proof. intros H. by rewrite find_declaration_newlines, H. Qed.

Lemma find_declaration_read_none (s : str) :
  find_declaration s = None -> find_declaration (universal_newlines s) = None.
Proof. intros H. by rewrite find_declaration_newlines, H. Qed.

(** *** Stripping and reading commute *)

Lemma blank_newlines (ws : str) :
  blank ws = true -> blank (universal_newlines ws) = true.
Proof.
  induction ws as [|s IH|s Hs IH|c s Hc IH] using newlines_ind.
  - done.
  - rewrite universal_newlines_crlf. cbn [blank forallb].
    change (isspace CR) with true. change (isspace NL) with true. done.
  - rewrite universal_newlines_cr by done. cbn [blank forallb].
    change (isspace CR) with true. change (isspace NL) with true. done.
  - rewrite universal_newlines_other by done. cbn [blank forallb].
    intros H. apply andb_true_iff in H as [H1 H2]. rewrite H1. by apply IH.
Qed.

Lemma rstrip_split (x : str) :
  exists y ws,
    x = y ++ ws /\ blank ws = true /\ rstrip x = y
    /\ (y = [] \/ exists y' c, y = y' ++ [c] /\ isspace c = false).
Proof.
  induction x as [|c x IH] using rev_ind.
  - exists [], []. by repeat split; [..|left].
  - destruct (isspace c) eqn:Hc.
    + destruct IH as (y & ws & -> & Hws & Hr & Hy).
      exists y, (ws ++ [c]). rewrite <- app_assoc. split; [done|]. split.
      * unfold blank in *. rewrite forallb_app, Hws. cbn. by rewrite Hc.
      * split; [|done]. rewrite app_assoc.
        rewrite (rstrip_spaces _ [c]) by (cbn; by rewrite Hc). done.
    + exists (x ++ [c]), []. rewrite app_nil_r. split; [done|].
      split; [done|]. split; [by apply rstrip_snoc_nonspace|].
      right. by exists x, c.
Qed.

Lemma rstrip_newlines (x : str) :
  rstrip (universal_newlines x) = universal_newlines (rstrip x).
Proof.
  destruct (rstrip_split x) as (y & ws & -> & Hws & -> & [->|(y' & c & -> & Hc)]).
  - cbn [app]. rewrite <- (app_nil_l (universal_newlines ws)).
    by rewrite rstrip_spaces by by apply blank_newlines.
  - pose proof (isspace_newline _ Hc) as Hn.
    rewrite universal_newlines_app_l by done.
    rewrite rstrip_spaces by by apply blank_newlines.
    rewrite universal_newlines_snoc by done.
    by apply rstrip_snoc_nonspace.
Qed.

Lemma strip_newlines (x : str) :
  strip (universal_newlines x) = universal_newlines (strip x).
Proof. unfold strip. by rewrite lstrip_newlines, rstrip_newlines. Qed.

Lemma strip_infix (x : str) : exists w1 w2, x = w1 ++ strip x ++ w2.
Proof.
  destruct (lstrip_suffix x) as [w1 H1].
  destruct (rstrip_split (lstrip x)) as (y & w2 & H2 & _ & Hr & _).
  exists w1, w2. unfold strip. rewrite Hr. by rewrite <- H2.
Qed.

Lemma no_backslash_newlines (x : str) :
  no_backslash x = true -> no_backslash (universal_newlines x) = true.
Proof.
  induction x as [|s IH|s Hs IH|c s Hc IH] using newlines_ind.
  - done.
  - rewrite universal_newlines_crlf. cbn [no_backslash forallb].
    change (CR =? BACKSLASH) with false. change (NL =? BACKSLASH) with false.
    done.
  - rewrite universal_newlines_cr by done. cbn [no_backslash forallb].
    change (CR =? BACKSLASH) with false. change (NL =? BACKSLASH) with false.
    done.
  - rewrite universal_newlines_other by done. cbn [no_backslash forallb].
    intros H. apply andb_true_iff in H as [H1 H2]. rewrite H1. by apply IH.
Qed.

Lemma plain_newlines (x : str) :
  plain x = true -> plain (universal_newlines x) = true.
Proof.
  unfold plain. intros H. apply andb_true_iff in H as [H1 H2].
  rewrite no_backslash_newlines by done.
  destruct x as [|c x]; [done|].
  destruct (N.eq_dec c CR) as [->|Hd].
  - destruct x as [|e x]; [done|].
    change (universal_newlines (CR :: e :: x))
      with (NL :: if e =? NL then universal_newlines x
                  else universal_newlines (e :: x)).
    done.
  - by rewrite universal_newlines_other.
Qed.

(** *** Text that UTF-8 encodes *)

Lemma encodable_app (x y : str) :
  encodable (x ++ y) = encodable x && encodable y.
Proof. apply forallb_app. Qed.

Lemma encodable_newlines (x : str) :
  encodable x = true -> encodable (universal_newlines x) = true.
Proof.
  induction x as [|s IH|s Hs IH|c s Hc IH] using newlines_ind.
  - done.
  - rewrite universal_newlines_crlf. cbn [encodable forallb].
    change (is_surrogate CR) with false. change (is_surrogate NL) with false.
    done.
  - rewrite universal_newlines_cr by done. cbn [encodable forallb].
    change (is_surrogate CR) with false. change (is_surrogate NL) with false.
    done.
  - rewrite universal_newlines_other by done. cbn [encodable forallb].
    intros H. apply andb_true_iff in H as [H1 H2]. rewrite H1. by apply IH.
Qed.

Lemma encodable_strip (x : str) :
  encodable x = true -> encodable (strip x) = true.
Proof.
  destruct (strip_infix x) as (w1 & w2 & H). rewrite H at 1.
  rewrite !encodable_app. intros E.
  apply andb_true_iff in E as [_ E]. by apply andb_true_iff in E as [E _].
Qed.

Lemma encodable_new_array_content (body filename : str) :
  encodable body = true -> encodable filename = true ->
  encodable (AddImage.new_array_content (strip body) filename) = true.
Proof.
  intros Hb Hf. apply encodable_strip in Hb.
  rewrite new_array_content_strip.
  destruct (truthy (strip body)); [destruct (endswith _ _)|];
    rewrite !encodable_app, ?Hb, ?Hf; reflexivity.
Qed.

Lemma encodable_sub_loop (x s : str) :
  encodable x = true -> encodable s = true ->
  encodable (sub_loop pattern (PGroup 1 :: map PLit x ++ [PGroup 3]) s 0) = true.
Proof.
  intros Hx. remember (length s) as n eqn:Hn. revert s Hn.
  induction n as [n IH] using lt_wf_ind. intros s -> Hs.
  destruct (find_declaration s) as [[p [[o b] t]]|] eqn:Hd.
  - rewrite (sub_loop_found _ _ _ _ _ _ Hd), expand_literal.
    rewrite group_1, group_3.
    pose proof (find_declaration_app _ _ _ _ _ Hd) as Hs'.
    rewrite Hs' in Hs. rewrite !encodable_app in Hs.
    repeat (apply andb_true_iff in Hs as [? Hs]).
    assert (Hlt : (length t < length s)%nat).
    { rewrite Hs', !length_app. change (length CLOSE) with 2%nat. lia. }
    rewrite !encodable_app, (IH _ Hlt t eq_refl) by done.
    repeat (apply andb_true_iff; split); done.
  - by rewrite sub_loop_not_found.
Qed.

(** ** The patch on a document whose new array text is plain *)

Lemma re_sub_plain (x document p o b t : str) :
  plain x = true ->
  find_declaration document = Some (p, (o, b, t)) ->
  re_sub pattern (replacement x) document =
  Some (p ++ (o ++ x ++ CLOSE)
          ++ sub_loop pattern (PGroup 1 :: map PLit x ++ [PGroup 3]) t 0).
Proof.
  intros Hx Hd. unfold re_sub. change (ngroups pattern) with 3.
  rewrite parse_template_replacement by done.
  rewrite (sub_loop_found _ _ _ _ _ _ Hd), expand_literal.
  by rewrite group_1, group_3.
Qed.

Lemma encodable_patched (s filename p o b t : str) :
  find_declaration s = Some (p, (o, b, t)) ->
  encodable s = true -> encodable filename = true ->
  encodable
    (p ++ (o ++ AddImage.new_array_content (strip b) filename ++ CLOSE)
       ++ sub_loop pattern
            (PGroup 1
               :: map PLit (AddImage.new_array_content (strip b) filename)
               ++ [PGroup 3]) t 0) = true.
Proof.
  intros Hd Hs Hf. rewrite (find_declaration_app _ _ _ _ _ Hd) in Hs.
  rewrite !encodable_app in Hs.
  repeat (apply andb_true_iff in Hs as [? Hs]).
  rewrite !encodable_app, encodable_sub_loop, encodable_new_array_content
    by (done || by apply encodable_new_array_content).
  repeat (apply andb_true_iff; split); done.
Qed.

(** The patch of a stored document whose new array text is plain: the
    text is read, patched and, being encodable, written. *)
Lemma appendEntry_plain (document filename p o b t : str) :
  find_declaration (universal_newlines document) = Some (p, (o, b, t)) ->
  plain (AddImage.new_array_content (strip b) filename) = true ->
  encodable document = true -> encodable filename = true ->
  appendEntry document filename =
  Val (Some (p ++ (o ++ AddImage.new_array_content (strip b) filename ++ CLOSE)
               ++ sub_loop pattern
                    (PGroup 1
                       :: map PLit (AddImage.new_array_content (strip b) filename)
                       ++ [PGroup 3]) t 0)).
Proof.
  intros Hd Hx Ed Ef. rewrite appendEntry_run, Hd.
  rewrite (re_sub_plain _ _ _ _ _ _ Hx Hd).
  by rewrite (encodable_patched _ _ _ _ _ _ Hd (encodable_newlines _ Ed) Ef).
Qed.

(** ** The end-to-end scenario of the spec *)

Lemma re_search_none (s : str) :
  re_search pattern s = None <-> find_declaration s = None.
Proof.
  rewrite re_search_pattern.
  by destruct (find_declaration s) as [[p [[o b] t]]|].
Qed.

Lemma re_search_pre (s p : str) :
  m_pre <$> re_search pattern s = Some p ->
  exists o b t, find_declaration s = Some (p, (o, b, t)).
Proof.
  rewrite re_search_pattern.
  destruct (find_declaration s) as [[p' [[o b] t]]|]; [|done].
  intros [= <-]. by exists o, b, t.
Qed.

(** C1, as the spec states it, fails: on the scenario's declaration the
    patch does not produce the declaration the spec gives. *)
Lemma scenario_claimed_not_produced :
  appendEntry scenario_declaration (lit "b.jpg") <> Val (Some scenario_claimed).
Proof. vm_compute. discriminate. Qed.

(** C1 (amended): when the scenario's declaration is the leftmost match of
    the stored document, nothing after it matches and the text around it
    is encodable, adding [b.jpg] rewrites the declaration to the opening
    directly followed by ["a.jpg",], a newline, six spaces, ["b.jpg"] and
    the closing: the line break and indentation around the old body are
    dropped.  The text before and after the declaration is written back as
    it was read, every [\r\n] and [\r] as [\n]; it is unchanged when it
    holds no carriage return. *)
Theorem scenario_add_b (pre post : str) :
  m_pre <$> re_search pattern (pre ++ scenario_declaration ++ post) = Some pre ->
  re_search pattern post = None ->
  encodable pre = true -> encodable post = true ->
  appendEntry (pre ++ scenario_declaration ++ post) (lit "b.jpg")
  = Val (Some (universal_newlines pre ++ scenario_patched
                 ++ universal_newlines post))
  /\ (no_cr pre = true -> no_cr post = true ->
      appendEntry (pre ++ scenario_declaration ++ post) (lit "b.jpg")
      = Val (Some (pre ++ scenario_patched ++ post))).
Proof.
  intros Hpre Hpost Epre Epost.
  enough (H : appendEntry (pre ++ scenario_declaration ++ post) (lit "b.jpg")
              = Val (Some (universal_newlines pre ++ scenario_patched
                             ++ universal_newlines post))).
  { split; [done|]. intros Cpre Cpost.
    by rewrite H, !universal_newlines_no_cr. }
  destruct (re_search_pre _ _ Hpre) as (o & b & t & Hd).
  destruct (find_declaration_inv _ _ _ Hd) as (rest & Hrest & Hdecl).
  apply app_inv_head in Hrest. subst rest.
  assert (Hd' : declaration (scenario_declaration ++ post)
                = Some (OPENING, scenario_body, post)).
  { unfold scenario_declaration. rewrite <- !app_assoc.
    apply declaration_intro; reflexivity. }
  rewrite Hd' in Hdecl. injection Hdecl as <- <- <-.
  assert (Hx : AddImage.new_array_content (strip scenario_body) (lit "b.jpg")
               = [QUOTE] ++ lit "a.jpg" ++ [QUOTE] ++ lit ","
                   ++ [NL] ++ INDENT ++ [QUOTE] ++ lit "b.jpg" ++ [QUOTE])
    by reflexivity.
  apply find_declaration_read in Hd.
  change (universal_newlines OPENING) with OPENING in Hd.
  change (universal_newlines scenario_body) with scenario_body in Hd.
  rewrite (appendEntry_plain _ _ _ _ _ _ Hd); [|reflexivity| |reflexivity].
  - rewrite Hx. apply re_search_none, find_declaration_read_none in Hpost.
    rewrite sub_loop_not_found by done.
    unfold scenario_patched. by rewrite <- !app_assoc.
  - by rewrite !encodable_app, Epre, Epost.
Qed.

Lemma scenario_add_b_witness :
  appendEntry (lit "<script>" ++ [CR; NL] ++ scenario_declaration ++ lit "</script>")
    (lit "b.jpg")
  = Val (Some (lit "<script>" ++ [NL] ++ scenario_patched ++ lit "</script>")).
Proof.
  refine (proj1 (scenario_add_b (lit "<script>" ++ [CR; NL]) (lit "</script>")
                   _ _ _ _)); vm_compute; reflexivity.
Defined.

(** ** Frame, failure and the two scripts *)




(** C3: when the document holds no match of the pattern, the patch returns
    [False] and the files are what they were, in either script. *)
Theorem no_match_no_write (image_filename html_file content : str) (w : world) :
  fs w !! html_file = Some content ->
  re_search pattern content = None ->
  fst (AddImage.add_image_to_html image_filename html_file w) = Val false
  /\ fs (snd (AddImage.add_image_to_html image_filename html_file w)) = fs w
  /\ fst (Update.add_image_to_html image_filename html_file w) = Val false
  /\ fs (snd (Update.add_image_to_html image_filename html_file w)) = fs w.
Proof.
  intros Hf Hs. apply re_search_none, find_declaration_read_none in Hs.
  change (Update.add_image_to_html image_filename html_file w)
    with (AddImage.add_image_to_html image_filename html_file w).
  rewrite add_image_to_html_run, Hf, Hs. done.
Qed.

Lemma no_match_no_write_witness :
  fst (AddImage.add_image_to_html (lit "b.jpg") index_html
         (mkWorld {[ index_html := lit "<html></html>" ]} [] [])) = Val false.
Proof.
  apply (no_match_no_write (lit "b.jpg") index_html (lit "<html></html>")
           (mkWorld {[ index_html := lit "<html></html>" ]} [] []));
    vm_compute; reflexivity.
Defined.

(** C8: the two scripts patch alike: on every file name, document path and
    world, [add_image_to_html] of [add_image.py] and of [update.py] return
    the same result and leave the same world. *)
Theorem add_image_to_html_same (image_filename html_file : str) (w : world) :
  AddImage.add_image_to_html image_filename html_file w
  = Update.add_image_to_html image_filename html_file w.
Proof. reflexivity. Qed.

(** ** Every occurrence is rewritten *)

Lemma re_search_shorter (s : str) (m : Match) :
  re_search pattern s = Some m -> (length (m_post m) < length s)%nat.
Proof.
  rewrite re_search_pattern.
  destruct (find_declaration s) as [[p [[o b] t]]|] eqn:Hd; [|done].
  intros [= <-]. cbn [m_post].
  rewrite (find_declaration_app _ _ _ _ _ Hd), !length_app.
  change (length CLOSE) with 2%nat. lia.
Qed.

(** Every text has its occurrences. *)
Lemma occurrences_total (s : str) : exists ms tail, occurrences s ms tail.
Proof.
  remember (length s) as n eqn:Hn. revert s Hn.
  induction n as [n IH] using lt_wf_ind. intros s ->.
  destruct (re_search pattern s) as [m|] eqn:Hm.
  - destruct (IH (length (m_post m)) (re_search_shorter _ _ Hm) _ eq_refl)
      as (ms & tail & H).
    exists (m :: ms), tail. by econstructor.
  - exists [], s. by constructor.
Qed.

Lemma sub_loop_occurrences (tpl : list piece) (s : str) (ms : list Match)
      (tail : str) :
  occurrences s ms tail ->
  sub_loop pattern tpl s 0
  = flat_map (fun m => m_pre m ++ expand tpl (m_groups m)) ms ++ tail.
Proof.
  induction 1 as [s Hs|s m ms tail Hm _ IH].
  - apply re_search_none in Hs. by apply sub_loop_not_found.
  - rewrite re_search_pattern in Hm.
    destruct (find_declaration s) as [[p [[o b] t]]|] eqn:Hd; [|done].
    injection Hm as <-. cbn [m_pre m_groups m_post flat_map] in *.
    rewrite (sub_loop_found _ _ _ _ _ _ Hd), IH. by rewrite <- !app_assoc.
Qed.

(** C9, as stated for every document, fails.  The new body is not put in
    place of each body: it is pasted into a replacement template, and what
    each occurrence receives is the expansion of that template for that
    occurrence.  When the first body is [\2], the template refers to the
    body of the occurrence at hand and the second occurrence keeps its own
    body, followed by the new entry; when the first body is [1], the
    template begins with [\11], [re.sub] raises and no occurrence is
    rewritten. *)
Lemma later_body_not_replaced :
  appendEntry
    (OPENING ++ [BACKSLASH; 50] ++ CLOSE ++ lit " "
       ++ OPENING ++ [QUOTE] ++ lit "z" ++ [QUOTE] ++ CLOSE)
    (lit "b.jpg")
  = Val (Some
           (OPENING
              ++ ([BACKSLASH; 50] ++ lit "," ++ [NL] ++ INDENT
                    ++ [QUOTE] ++ lit "b.jpg" ++ [QUOTE])
              ++ CLOSE ++ lit " "
              ++ OPENING
              ++ ([QUOTE] ++ lit "z" ++ [QUOTE] ++ lit "," ++ [NL] ++ INDENT
                    ++ [QUOTE] ++ lit "b.jpg" ++ [QUOTE])
              ++ CLOSE))
  /\ appendEntry
       (OPENING ++ lit "1" ++ CLOSE ++ lit " "
          ++ OPENING ++ [QUOTE] ++ lit "z" ++ [QUOTE] ++ CLOSE)
       (lit "b.jpg")
     = Exc Error.
Proof. split; vm_compute; reflexivity. Qed.

(** C9 (amended): when the pattern occurs more than once in the text read
    from the document, a patch that succeeds has rewritten every
    occurrence with the expansion of the one replacement template built
    from the first occurrence's body; and when that new array text is
    plain and the document and the file name are encodable, the patch does
    succeed and every occurrence's body becomes that same text, between
    the occurrence's own opening and the closing token. *)
Theorem every_occurrence_rewritten
        (document filename tail : str) (m m' : Match) (ms : list Match) :
  occurrences (universal_newlines document) (m :: m' :: ms) tail ->
  (forall document',
     appendEntry document filename = Val (Some document') ->
     exists tpl,
       parse_template 3 None
         (replacement
            (AddImage.new_array_content (strip (group (m_groups m) 2)) filename))
       = Some tpl
       /\ document'
          = flat_map (fun mi => m_pre mi ++ expand tpl (m_groups mi))
              (m :: m' :: ms)
              ++ tail)
  /\ (plain (AddImage.new_array_content (strip (group (m_groups m) 2)) filename)
      = true ->
      encodable document = true -> encodable filename = true ->
      appendEntry document filename
      = Val (Some
               (flat_map
                  (fun mi =>
                     m_pre mi ++ group (m_groups mi) 1
                       ++ AddImage.new_array_content
                            (strip (group (m_groups m) 2)) filename
                       ++ group (m_groups mi) 3)
                  (m :: m' :: ms)
                  ++ tail))).
Proof.
  intros Hocc. pose proof Hocc as Hocc'.
  inversion Hocc as [|s m0 ms0 tail0 Hm Hrest]; subst.
  pose proof Hm as Hm'. rewrite re_search_pattern in Hm'.
  destruct (find_declaration (universal_newlines document))
    as [[p [[o b] t]]|] eqn:Hd; [|done].
  injection Hm' as <-. cbn [m_groups m_post] in *. rewrite group_2. split.
  - intros document' Hrun. rewrite appendEntry_run, Hd in Hrun.
    unfold re_sub in Hrun. change (ngroups pattern) with 3 in Hrun.
    destruct (parse_template 3 None _) as [tpl|] eqn:Htpl; [|done].
    cbn [fmap option_fmap option_map] in Hrun.
    destruct (encodable _); [|done].
    injection Hrun as <-. exists tpl. split; [done|].
    by apply sub_loop_occurrences.
  - intros Hx Ed Ef. rewrite (appendEntry_plain _ _ _ _ _ _ Hd) by done.
    rewrite (sub_loop_occurrences _ _ _ _ Hrest).
    erewrite flat_map_ext by (intros mi; by rewrite expand_literal).
    cbn [flat_map m_pre m_groups]. rewrite group_1, group_3.
    by rewrite <- !app_assoc.
Qed.

Lemma every_occurrence_rewritten_witness :
  appendEntry two_declarations (lit "b.jpg") = Val (Some two_declarations_patched).
Proof.
  destruct (every_occurrence_rewritten two_declarations (lit "b.jpg") (lit "!")
              (mkMatch [] (pattern_groups OPENING [])
                 (lit " " ++ OPENING ++ [QUOTE] ++ lit "z" ++ [QUOTE] ++ CLOSE ++ lit "!"))
              (mkMatch (lit " ")
                 (pattern_groups OPENING ([QUOTE] ++ lit "z" ++ [QUOTE])) (lit "!"))
              [])
    as [_ H].
  - apply occ_next; [vm_compute; reflexivity|].
    apply occ_next; [vm_compute; reflexivity|].
    apply occ_last. vm_compute; reflexivity.
  - rewrite H; vm_compute; reflexivity.
Defined.

(** ** A document the patch cannot extend (C5) *)

(** C5, at a document the scripts can meet: the trimmed body is not empty
    and ends with a comma, yet nothing is appended.  The old body is part
    of the replacement string, [re.sub] reads its [\u] as an escape it does
    not know and raises. *)
Theorem escaped_manifest_raises :
  (fun m => strip (group (m_groups m) 2)) <$> re_search pattern escaped_manifest
  = Some ([QUOTE] ++ lit "caf" ++ [BACKSLASH] ++ lit "u00e9.jpg" ++ [QUOTE] ++ lit ",")
  /\ appendEntry escaped_manifest (lit "b.jpg") = Exc Error.
Proof. split; vm_compute; reflexivity. Qed.

(** What the third case of the append algorithm gives when [re.sub] takes
    the new array text literally: the old trimmed body, a newline, six
    spaces and the quoted file name, with no comma added. *)
Lemma append_after_comma (document filename p o b t x : str) :
  find_declaration (universal_newlines document) = Some (p, (o, b, t)) ->
  strip b = x ++ lit "," ->
  plain (strip b ++ [NL] ++ INDENT ++ [QUOTE] ++ filename ++ [QUOTE]) = true ->
  encodable document = true -> encodable filename = true ->
  appendEntry document filename =
  Val (Some (p ++ (o ++ (strip b ++ [NL] ++ INDENT ++ [QUOTE] ++ filename ++ [QUOTE])
                     ++ CLOSE)
               ++ sub_loop pattern
                    (PGroup 1
                       :: map PLit (strip b ++ [NL] ++ INDENT ++ [QUOTE]
                                      ++ filename ++ [QUOTE])
                       ++ [PGroup 3]) t 0)).
Proof.
  intros Hd Hb Hx Ed Ef.
  assert (Hn : AddImage.new_array_content (strip b) filename
               = strip b ++ [NL] ++ INDENT ++ [QUOTE] ++ filename ++ [QUOTE]).
  { rewrite new_array_content_strip, Hb. change (lit ",") with [44].
    by rewrite truthy_snoc, endswith_snoc. }
  rewrite (appendEntry_plain _ _ _ _ _ _ Hd); rewrite ?Hn; done.
Qed.

(** ** The declaration stays where it is when its body is replaced *)

Lemma find_close_contains (x y : str) : is_Some (find_close (x ++ CLOSE ++ y)).
Proof.
  induction x as [|c x IH].
  - cbn [app]. destruct y; by eexists.
  - cbn [app find_close].
    destruct (strip_prefix CLOSE (c :: x ++ CLOSE ++ y)); [by eexists|].
    destruct IH as [[b t] ->]. by eexists.
Qed.

Lemma find_close_app_r (q r : str) :
  is_Some (find_close r) -> is_Some (find_close (q ++ r)).
Proof.
  intros [[b t] H]. rewrite (find_close_app _ _ _ H).
  rewrite app_assoc. apply find_close_contains.
Qed.

Lemma declaration_none_stable (w r r' : str) :
  BRACKET ∈ w -> is_Some (find_close r) ->
  declaration (w ++ r) = None -> declaration (w ++ r') = None.
Proof.
  intros Hw Hr. unfold declaration. rewrite !lex_opening_local by done.
  destruct (lex_opening w) as [q|]; [|done].
  cbn [fmap option_fmap option_map].
  destruct (find_close_app_r q r Hr) as [[b t] ->]. done.
Qed.

Lemma find_declaration_here (s : str) (d : str * str * str) :
  declaration s = Some d -> find_declaration s = Some ([], d).
Proof. intros H. destruct s; cbn [find_declaration]; by rewrite H. Qed.

Lemma is_opening_bracket (o : str) : is_opening o -> BRACKET ∈ o.
Proof.
  intros H. destruct (lex_opening_bracket _ _ H) as [o' ->].
  rewrite app_nil_r. apply elem_of_app. right. by left.
Qed.

Lemma find_declaration_stable (p o b t b' t' : str) :
  find_declaration (p ++ o ++ b ++ CLOSE ++ t) = Some (p, (o, b, t)) ->
  find_close b' = None ->
  find_declaration (p ++ o ++ b' ++ CLOSE ++ t') = Some (p, (o, b', t')).
Proof.
  intros Hd Hb'.
  assert (Ho : is_opening o).
  { destruct (find_declaration_inv _ _ _ Hd) as (rest & Hrest & Hdecl).
    apply app_inv_head in Hrest. subst rest.
    by apply declaration_inv in Hdecl as (_ & Ho & _). }
  clear -Hd Hb' Ho. induction p as [|c p IH].
  - cbn [app]. apply find_declaration_here. by apply declaration_intro.
  - cbn [app find_declaration] in Hd |- *.
    destruct (declaration (c :: p ++ o ++ b ++ CLOSE ++ t)) as [d|] eqn:E.
    { by injection Hd. }
    destruct (find_declaration (p ++ o ++ b ++ CLOSE ++ t)) as [[p' d]|] eqn:E';
      [|done].
    injection Hd as -> ->.
    assert (declaration (c :: p ++ o ++ b' ++ CLOSE ++ t') = None) as ->.
    { change (c :: p ++ o ++ b' ++ CLOSE ++ t')
        with ((c :: p) ++ o ++ b' ++ CLOSE ++ t').
      rewrite app_assoc.
      apply (declaration_none_stable _ (b ++ CLOSE ++ t)).
      - apply elem_of_app. right. by apply is_opening_bracket.
      - apply find_close_contains.
      - rewrite <- app_assoc. exact E. }
    by rewrite IH.
Qed.

(** ** Texts without a closing token *)

Lemma find_close_none_cons (c : N) (s : str) :
  find_close (c :: s) = None <->
  strip_prefix CLOSE (c :: s) = None /\ find_close s = None.
Proof.
  cbn [find_close]. destruct (strip_prefix CLOSE (c :: s)); [by split; [|intros []]|].
  destruct (find_close s) as [[b t]|]; [by split; [|intros []]|]. done.
Qed.

(** No closing token begins in a text without a right bracket. *)
Lemma find_close_skip (x y : str) :
  RBRACKET ∉ x -> find_close y = None -> find_close (x ++ y) = None.
Proof.
  intros Hx Hy. induction x as [|c x IH]; [done|].
  cbn [app]. apply find_close_none_cons. split.
  - change CLOSE with [RBRACKET; 59]. cbn [strip_prefix].
    destruct (N.eqb_spec RBRACKET c) as [<-|]; [|done].
    exfalso. apply Hx. by left.
  - apply IH. intros H. apply Hx. by right.
Qed.

(** Two texts without a closing token, the second not beginning with a
    semicolon, have none together. *)
Lemma find_close_none_app (x y : str) :
  find_close x = None -> find_close y = None -> head y <> Some 59 ->
  find_close (x ++ y) = None.
Proof.
  intros Hx Hy Hh. induction x as [|c x IH]; [done|].
  apply find_close_none_cons in Hx as [Hc Hx].
  cbn [app]. apply find_close_none_cons. split; [|by apply IH].
  revert Hc. change CLOSE with [RBRACKET; 59]. cbn [strip_prefix].
  destruct (RBRACKET =? c); [|done].
  destruct x as [|d x]; cbn [app].
  - intros _. destruct y as [|d y]; [done|].
    destruct (N.eqb_spec 59 d) as [<-|]; [|done]. by destruct Hh.
  - by destruct (59 =? d).
Qed.

Lemma no_backslash_app (x y : str) :
  no_backslash (x ++ y) = no_backslash x && no_backslash y.
Proof. apply forallb_app. Qed.

(** ** Two additions to an empty manifest (C4) *)

(** C4, as stated for every pair of file names, fails: a file name that
    holds the closing token cuts the manifest short, and after the second
    addition the body of the manifest is not the two entries. *)
Lemma closing_token_in_name_breaks_manifest :
  body_after (appendEntry_twice (OPENING ++ CLOSE) (lit "a];b") (lit "c.jpg"))
  <> Some (two_entries (lit "a];b") (lit "c.jpg")).
Proof. vm_compute. discriminate. Qed.

Lemma manifest_body_found (document p o b t : str) :
  find_declaration document = Some (p, (o, b, t)) ->
  manifest_body document = Some b.
Proof.
  intros H. unfold manifest_body. rewrite re_search_pattern, H.
  cbn [fmap option_fmap option_map m_groups]. by rewrite group_2.
Qed.

Lemma manifest_body_inv (document b : str) :
  manifest_body document = Some b ->
  exists p o t, find_declaration document = Some (p, (o, b, t)).
Proof.
  unfold manifest_body. rewrite re_search_pattern.
  destruct (find_declaration document) as [[p [[o b'] t]]|]; [|done].
  cbn [fmap option_fmap option_map m_groups]. rewrite group_2.
  intros [= ->]. by exists p, o, t.
Qed.

Lemma find_close_read_none (x : str) :
  find_close x = None -> find_close (universal_newlines x) = None.
Proof. intros H. by rewrite find_close_newlines, H. Qed.

(** A quoted name on a line of its own, as it is read back. *)
Lemma universal_newlines_entry (f : str) :
  universal_newlines ([NL] ++ INDENT ++ [QUOTE] ++ f ++ [QUOTE] ++ [NL] ++ INDENT)
  = [NL] ++ INDENT ++ [QUOTE] ++ universal_newlines f ++ [QUOTE] ++ [NL] ++ INDENT.
Proof.
  replace ([NL] ++ INDENT ++ [QUOTE] ++ f ++ [QUOTE] ++ [NL] ++ INDENT)
    with ((([NL] ++ INDENT) ++ [QUOTE]) ++ f ++ [QUOTE] ++ [NL] ++ INDENT)
    by list_assoc.
  rewrite universal_newlines_app_l by done.
  rewrite (universal_newlines_app_r f) by done.
  change (universal_newlines (([NL] ++ INDENT) ++ [QUOTE]))
    with (([NL] ++ INDENT) ++ [QUOTE]).
  change (universal_newlines ([QUOTE] ++ [NL] ++ INDENT))
    with ([QUOTE] ++ [NL] ++ INDENT).
  list_assoc.
Qed.

(** C4 (amended): for encodable file names without a backslash and without
    the closing token, two additions to an encodable document whose
    manifest body is blank both succeed, and the body of the manifest is
    then exactly the two quoted entries, in order, one comma between them
    and none after the second.  The first name is there as the second
    addition read it: a carriage return in it has become a line feed. *)
Theorem two_additions (document f1 f2 : str) :
  strip <$> manifest_body document = Some [] ->
  no_backslash f1 = true -> no_backslash f2 = true ->
  find_close f1 = None -> find_close f2 = None ->
  encodable document = true ->
  encodable f1 = true -> encodable f2 = true ->
  body_after (appendEntry_twice document f1 f2)
  = Some (two_entries (universal_newlines f1) f2)
  /\ (no_cr f1 = true ->
      body_after (appendEntry_twice document f1 f2)
      = Some (two_entries f1 f2)).
Proof.
  intros Hbody Hb1 Hb2 Hc1 Hc2 Ed E1 E2.
  enough (H : body_after (appendEntry_twice document f1 f2)
              = Some (two_entries (universal_newlines f1) f2)).
  { split; [done|]. intros C1. by rewrite H, universal_newlines_no_cr. }
  destruct (manifest_body document) as [b0|] eqn:Hm; [|done].
  injection Hbody as Hstrip0.
  destruct (manifest_body_inv _ _ Hm) as (p0 & o0 & t0 & Hd0).
  apply find_declaration_read in Hd0.
  set (p := universal_newlines p0) in *. set (o := universal_newlines o0) in *.
  set (b := universal_newlines b0) in *. set (t := universal_newlines t0) in *.
  assert (Hstrip : strip b = [])
    by (unfold b; by rewrite strip_newlines, Hstrip0).
  (* the first addition *)
  set (x1 := [NL] ++ INDENT ++ [QUOTE] ++ f1 ++ [QUOTE] ++ [NL] ++ INDENT).
  assert (Hn1 : AddImage.new_array_content (strip b) f1 = x1)
    by (rewrite Hstrip; reflexivity).
  assert (Hp1 : plain x1 = true).
  { unfold plain, x1. rewrite !no_backslash_app, Hb1. reflexivity. }
  assert (Hx1 : find_close x1 = None).
  { unfold x1. rewrite 2!app_assoc. apply find_close_skip.
    - vm_compute. intros H.
      repeat (apply elem_of_cons in H as [H|H]; [done|]).
      by apply elem_of_nil in H.
    - apply find_close_none_app; done. }
  pose proof (encodable_patched _ f1 _ _ _ _ Hd0 (encodable_newlines _ Ed) E1)
    as Ed1.
  unfold appendEntry_twice.
  rewrite (appendEntry_plain _ _ _ _ _ _ Hd0); rewrite ?Hn1; [|done..].
  rewrite Hn1 in Ed1. revert Ed1.
  set (t1 := sub_loop pattern _ t 0). intros Ed1.
  assert (Hd1 : find_declaration (p ++ (o ++ x1 ++ CLOSE) ++ t1)
                = Some (p, (o, x1, t1))).
  { rewrite <- !app_assoc. apply (find_declaration_stable p o b t); [|done].
    by rewrite <- (find_declaration_app _ _ _ _ _ Hd0). }
  apply find_declaration_read in Hd1.
  (* the second addition *)
  set (g1 := universal_newlines f1).
  assert (Hu1 : universal_newlines x1
                = [NL] ++ INDENT ++ [QUOTE] ++ g1 ++ [QUOTE] ++ [NL] ++ INDENT)
    by apply universal_newlines_entry.
  assert (Hs1 : strip (universal_newlines x1) = QUOTE :: g1 ++ [QUOTE]).
  { rewrite Hu1.
    replace ([NL] ++ INDENT ++ [QUOTE] ++ g1 ++ [QUOTE] ++ [NL] ++ INDENT)
      with (([NL] ++ INDENT) ++ (QUOTE :: g1 ++ [QUOTE]) ++ ([NL] ++ INDENT))
      by list_assoc.
    by apply strip_padded. }
  assert (Hg1 : no_backslash g1 = true) by by apply no_backslash_newlines.
  assert (Hcg1 : find_close g1 = None) by by apply find_close_read_none.
  assert (Hn2 : AddImage.new_array_content (strip (universal_newlines x1)) f2
                = two_entries g1 f2).
  { rewrite new_array_content_strip, Hs1.
    change (QUOTE :: g1 ++ [QUOTE]) with ((QUOTE :: g1) ++ [QUOTE]).
    change (lit ",") with [44]. rewrite truthy_snoc, endswith_snoc.
    unfold two_entries. list_assoc. }
  assert (Hp2 : plain (two_entries g1 f2) = true).
  { unfold plain, two_entries. rewrite !no_backslash_app, Hg1, Hb2.
    reflexivity. }
  assert (Hx2 : find_close (two_entries g1 f2) = None).
  { unfold two_entries. apply (find_close_skip [QUOTE]).
    { intros H. apply elem_of_cons in H as [H|H]; [done|].
      by apply elem_of_nil in H. }
    apply find_close_none_app; [done| |done].
    rewrite 4!app_assoc. apply find_close_skip.
    - vm_compute. intros H.
      repeat (apply elem_of_cons in H as [H|H]; [done|]).
      by apply elem_of_nil in H.
    - apply find_close_none_app; done. }
  rewrite (appendEntry_plain _ _ _ _ _ _ Hd1); rewrite ?Hn2; [|done..].
  cbn [body_after]. set (t2 := sub_loop pattern _ _ 0).
  apply (manifest_body_found _ (universal_newlines p) (universal_newlines o)
           _ t2).
  rewrite <- !app_assoc.
  apply (find_declaration_stable _ _ (universal_newlines x1)
           (universal_newlines t1)); [|done].
  by rewrite <- (find_declaration_app _ _ _ _ _ Hd1).
Qed.

Lemma two_additions_witness :
  body_after (appendEntry_twice (lit "<script>const images = [ ];</script>")
                (lit "a" ++ [CR] ++ lit ".jpg") (lit "b.jpg"))
  = Some (two_entries (lit "a" ++ [NL] ++ lit ".jpg") (lit "b.jpg")).
Proof.
  refine (proj1 (two_additions (lit "<script>const images = [ ];</script>")
                   (lit "a" ++ [CR] ++ lit ".jpg") (lit "b.jpg")
                   _ _ _ _ _ _ _ _));
    vm_compute; reflexivity.
Defined.

(** ** The publisher *)

Lemma run_git_command_run (env : environment) (command error_message : str)
      (w : world) :
  AddImage.run_git_command env command error_message w =
  let c := shell env (cmds w) command in
  (Val (returncode_zero c, command_output c),
   mkWorld (fs w) (out w ++ failure_lines error_message c) (cmds w ++ [command])).
Proof.
  unfold AddImage.run_git_command, bind, subprocess_run, failure_lines,
    command_output.
  cbn. destruct (returncode_zero (shell env (cmds w) command)); cbn.
  - by rewrite app_nil_r.
  - by rewrite <- app_assoc.
Qed.

(** C7 (amended): when the commit fails, the publisher has printed the
    commit failure and its details; it then asks for the status and prints
    the line about no changes as well when that output is blank; either
    way it returns [False] and the last command run is the status query:
    no push is attempted. *)
Theorem commit_failure (env : environment) (image_filename : str)
        (commit_message : option str) (w : world) :
  returncode_zero (shell env (cmds w) CMD_REV_PARSE) = true ->
  returncode_zero
    (shell env (cmds w ++ [CMD_REV_PARSE]) (cmd_add image_filename)) = true ->
  returncode_zero
    (shell env (cmds w ++ [CMD_REV_PARSE] ++ [cmd_add image_filename])
       (cmd_commit (effective_message image_filename commit_message))) = false ->
  AddImage.commit_and_push_changes env image_filename commit_message w =
  (Val false,
   mkWorld (fs w)
     (out w
        ++ [LINE_PUBLISHING; LINE_ADDING; LINE_COMMITTING; LINE_COMMIT_FAILED;
            lit "Details: "
              ++ proc_stderr
                   (shell env (cmds w ++ [CMD_REV_PARSE] ++ [cmd_add image_filename])
                      (cmd_commit (effective_message image_filename commit_message)))]
        ++ failure_lines []
             (shell env
                (cmds w ++ [CMD_REV_PARSE] ++ [cmd_add image_filename]
                   ++ [cmd_commit (effective_message image_filename commit_message)])
                CMD_STATUS)
        ++ (if truthy
                 (strip
                    (command_output
                       (shell env
                          (cmds w ++ [CMD_REV_PARSE] ++ [cmd_add image_filename]
                             ++ [cmd_commit
                                   (effective_message image_filename commit_message)])
                          CMD_STATUS)))
            then [] else [LINE_NO_CHANGES]))
     (cmds w ++ [CMD_REV_PARSE] ++ [cmd_add image_filename]
        ++ [cmd_commit (effective_message image_filename commit_message)]
        ++ [CMD_STATUS])).
Proof.
  intros Hrepo Hadd Hcommit.
  unfold AddImage.commit_and_push_changes, AddImage.check_git_repo, bind.
  rewrite run_git_command_run. run.
  change (lit "git rev-parse --git-dir") with CMD_REV_PARSE.
  rewrite Hrepo. run.
  rewrite run_git_command_run. run.
  fold (cmd_add image_filename). rewrite Hadd. run.
  rewrite run_git_command_run. run.
  fold (effective_message image_filename commit_message).
  fold (cmd_commit (effective_message image_filename commit_message)).
  rewrite <- !app_assoc. rewrite Hcommit. run.
  rewrite run_git_command_run. run.
  change (lit "git status --porcelain") with CMD_STATUS.
  rewrite <- !app_assoc.
  unfold failure_lines at 1 2 3. rewrite Hrepo, Hadd, Hcommit.
  unfold LINE_PUBLISHING, LINE_ADDING, LINE_COMMITTING, LINE_COMMIT_FAILED,
    LINE_NO_CHANGES.
  destruct (truthy (strip (command_output _))); run; do 2 f_equal;
    list_assoc.
  by rewrite app_nil_r.
Qed.

(** C7, as stated, fails: with nothing to commit the publisher does print
    the informational line, but not in place of a failure: the commit
    failure is printed before it and the function returns [False], as it
    does when changes are pending. *)
Lemma nothing_to_commit_reports_failure :
  AddImage.commit_and_push_changes env_nothing_to_commit (lit "a.jpg") None
    (mkWorld ∅ [] [])
  = (Val false,
     mkWorld ∅
       [LINE_PUBLISHING; LINE_ADDING; LINE_COMMITTING; LINE_COMMIT_FAILED;
        lit "Details: "; LINE_NO_CHANGES]
       [CMD_REV_PARSE; cmd_add (lit "a.jpg");
        cmd_commit (lit "Add image: a.jpg"); CMD_STATUS]).
Proof. vm_compute. reflexivity. Qed.

Lemma commit_failure_witness :
  fst (AddImage.commit_and_push_changes env_nothing_to_commit (lit "a.jpg") None
         (mkWorld ∅ [] [])) = Val false.
Proof.
  rewrite (commit_failure env_nothing_to_commit (lit "a.jpg") None
             (mkWorld ∅ [] [])) by (vm_compute; reflexivity).
  reflexivity.
Defined.

(** The publisher never raises: it returns [True] or [False]. *)
Lemma commit_and_push_changes_returns (env : environment)
      (image_filename : str) (commit_message : option str) (w : world) :
  exists b w',
    AddImage.commit_and_push_changes env image_filename commit_message w
    = (Val b, w').
Proof.
  unfold AddImage.commit_and_push_changes, AddImage.check_git_repo, bind.
  repeat (rewrite run_git_command_run; run;
          try match goal with
              | |- context [if negb (returncode_zero ?c) then _ else _] =>
                  destruct (returncode_zero c) eqn:?
              | |- context [if returncode_zero ?c then _ else _] =>
                  destruct (returncode_zero c) eqn:?
              end; run);
    try match goal with
        | |- context [if negb (truthy ?c) then _ else _] => destruct (truthy c)
        end; run; eauto.
Qed.

(** ** The entry point *)

Lemma main_run (env : environment) (argv : list str) (w : world) :
  AddImage.main env argv w =
  if (length argv <? 2)%nat then
    (Exc (SystemExit 1),
     mkWorld (fs w)
       (out w ++ [lit "Usage: python add_image.py <image_file_path> [commit_message]";
                  [NL] ++ lit "Example:";
                  lit "  python add_image.py photo.jpg";
                  lit "  python add_image.py photo.jpg 'Add vacation photo'"])
       (cmds w))
  else
    match fs w !! nth 1 argv [] with
    | None =>
        (Exc (SystemExit 1),
         mkWorld (fs w)
           (out w ++ [lit "Error: Image file '" ++ nth 1 argv [] ++ lit "' not found!"])
           (cmds w))
    | Some content =>
        if negb (makedirs_ok env) then (Exc Error, w)
        else if negb (copy_ok env (nth 1 argv [])
                        (path_join (lit "images") (basename (nth 1 argv []))))
        then
          (Exc (SystemExit 1),
           mkWorld (fs w) (out w ++ [lit "Error copying file: "]) (cmds w))
        else
          match AddImage.add_image_to_html (basename (nth 1 argv [])) index_html
                  (copied w (nth 1 argv []) content) with
          | (Val true, w2) =>
              match AddImage.commit_and_push_changes env (basename (nth 1 argv []))
                      (if (2 <? length argv)%nat then Some (nth 2 argv []) else None)
                      (mkWorld (fs w2)
                         (out w2 ++ [[10003] ++ lit " Added '"
                                       ++ basename (nth 1 argv [])
                                       ++ lit "' to index.html"])
                         (cmds w2)) with
              | (Val _, w3) => (Val tt, w3)
              | (Exc e, w3) => (Exc e, w3)
              end
          | (Val false, w2) =>
              (Exc (SystemExit 1),
               mkWorld (fs w2) (out w2 ++ [lit "Failed to update index.html"])
                 (cmds w2))
          | (Exc e, w2) => (Exc e, w2)
          end
    end.
Proof.
  unfold AddImage.main, bind.
  destruct (length argv <? 2)%nat; run.
  { by rewrite <- !app_assoc. }
  unfold os_path_exists.
  destruct (fs w !! nth 1 argv []) as [content|] eqn:Hsrc; run; [|done].
  change (bool_decide (is_Some (Some content))) with true. run.
  unfold os_makedirs. destruct (makedirs_ok env); run; [|done].
  unfold try_except, shutil_copy2, bind.
  destruct (copy_ok env _ _); run; [|done].
  rewrite Hsrc. run.
  fold (copied w (nth 1 argv []) content).
  destruct (AddImage.add_image_to_html _ _ _) as [[[|]|e] w2]; run; done.
Qed.

Lemma add_image_to_html_no_exit (image_filename html_file : str) (w : world)
      (code : Z) :
  fst (AddImage.add_image_to_html image_filename html_file w)
  <> Exc (SystemExit code).
Proof.
  rewrite add_image_to_html_run.
  destruct (fs w !! html_file); [|done].
  destruct (find_declaration _) as [[p [[o b] t]]|]; [|done].
  destruct (re_sub _ _ _) as [new_content|]; [|done].
  by destruct (encodable new_content).
Qed.

(** C6: the exit status of [add_image.py].  It is 1 without an argument,
    for a source path that does not exist, when the images folder cannot
    be made or the copy fails, and when the patch returns [False] or
    raises; it is 0 when the copy and the patch succeed; and it is the
    same whatever the shell commands of the publisher do. *)
Theorem main_exit_status (env : environment) (argv : list str) (w : world) :
  ((length argv < 2)%nat ->
   exit_status (fst (AddImage.main env argv w)) = 1%Z)
  /\ ((2 <= length argv)%nat -> fs w !! nth 1 argv [] = None ->
      exit_status (fst (AddImage.main env argv w)) = 1%Z)
  /\ (forall content,
        (2 <= length argv)%nat -> fs w !! nth 1 argv [] = Some content ->
        makedirs_ok env = false
        \/ copy_ok env (nth 1 argv [])
             (path_join (lit "images") (basename (nth 1 argv []))) = false ->
        exit_status (fst (AddImage.main env argv w)) = 1%Z)
  /\ (forall content,
        (2 <= length argv)%nat -> fs w !! nth 1 argv [] = Some content ->
        makedirs_ok env = true ->
        copy_ok env (nth 1 argv [])
          (path_join (lit "images") (basename (nth 1 argv []))) = true ->
        fst (AddImage.add_image_to_html (basename (nth 1 argv [])) index_html
               (copied w (nth 1 argv []) content)) <> Val true ->
        exit_status (fst (AddImage.main env argv w)) = 1%Z)
  /\ (forall content,
        (2 <= length argv)%nat -> fs w !! nth 1 argv [] = Some content ->
        makedirs_ok env = true ->
        copy_ok env (nth 1 argv [])
          (path_join (lit "images") (basename (nth 1 argv []))) = true ->
        fst (AddImage.add_image_to_html (basename (nth 1 argv [])) index_html
               (copied w (nth 1 argv []) content)) = Val true ->
        exit_status (fst (AddImage.main env argv w)) = 0%Z)
  /\ (forall shell',
        exit_status
          (fst (AddImage.main (mkEnv (makedirs_ok env) (copy_ok env) shell')
                  argv w))
        = exit_status (fst (AddImage.main env argv w))).
Proof.
  repeat split.
  - intros Hn. rewrite main_run.
    by destruct (Nat.ltb_spec (length argv) 2); [|lia].
  - intros Hn Hsrc. rewrite main_run, Hsrc.
    by destruct (Nat.ltb_spec (length argv) 2); [lia|].
  - intros content Hn Hsrc Hfail. rewrite main_run, Hsrc.
    destruct (Nat.ltb_spec (length argv) 2); [lia|].
    destruct (makedirs_ok env); [|done].
    destruct Hfail as [Hf|Hf]; [done|]. by rewrite Hf.
  - intros content Hn Hsrc Hmk Hcp Hpatch. rewrite main_run, Hsrc, Hmk, Hcp.
    destruct (Nat.ltb_spec (length argv) 2); [lia|]. cbn [negb].
    pose proof (add_image_to_html_no_exit (basename (nth 1 argv [])) index_html
                  (copied w (nth 1 argv []) content)) as Hne.
    destruct (AddImage.add_image_to_html _ _ _) as [[[|]|[code|]] w2];
      cbn [fst] in *; try done.
    by destruct (Hne code).
  - intros content Hn Hsrc Hmk Hcp Hpatch. rewrite main_run, Hsrc, Hmk, Hcp.
    destruct (Nat.ltb_spec (length argv) 2); [lia|]. cbn [negb].
    destruct (AddImage.add_image_to_html _ _ _) as [[[|]|e] w2];
      cbn [fst] in *; try done.
    by destruct (commit_and_push_changes_returns env (basename (nth 1 argv []))
                   (if (2 <? length argv)%nat then Some (nth 2 argv []) else None)
                   (mkWorld (fs w2)
                      (out w2 ++ [[10003] ++ lit " Added '"
                                    ++ basename (nth 1 argv [])
                                    ++ lit "' to index.html"])
                      (cmds w2))) as (b & w3 & ->).
  - intros shell'. rewrite !main_run. cbn [makedirs_ok copy_ok].
    destruct (length argv <? 2)%nat; [done|].
    destruct (fs w !! nth 1 argv []) as [content|]; [|done].
    destruct (makedirs_ok env); [|done]. cbn [negb].
    destruct (copy_ok env _ _); [|done]. cbn [negb].
    destruct (AddImage.add_image_to_html _ _ _) as [[[|]|e] w2]; try done.
    do 2 match goal with
         | |- context [AddImage.commit_and_push_changes ?e ?f ?msg ?w0] =>
             destruct (commit_and_push_changes_returns e f msg w0)
               as (? & ? & ->)
         end.
    done.
Qed.

Lemma main_exit_status_witness :
  exit_status (fst (AddImage.main env_nothing_to_commit
                      [lit "add_image.py"; lit "/tmp/a.jpg"] sample_world)) = 0%Z
  /\ exit_status (fst (AddImage.main env_nothing_to_commit
                         [lit "add_image.py"; lit "/tmp/missing.jpg"]
                         sample_world)) = 1%Z
  /\ exit_status (fst (AddImage.main env_nothing_to_commit
                         [lit "add_image.py"] sample_world)) = 1%Z.
Proof.
  split; [|split].
  - destruct (main_exit_status env_nothing_to_commit
                [lit "add_image.py"; lit "/tmp/a.jpg"] sample_world)
      as (_ & _ & _ & _ & H & _).
    apply (H (lit "IMG")); first [vm_compute; reflexivity | cbn; lia].
  - destruct (main_exit_status env_nothing_to_commit
                [lit "add_image.py"; lit "/tmp/missing.jpg"] sample_world)
      as (_ & H & _).
    apply H; first [vm_compute; reflexivity | cbn; lia].
  - destruct (main_exit_status env_nothing_to_commit
                [lit "add_image.py"] sample_world) as (H & _).
    apply H. cbn. lia.
Defined.

Lemma destination_not_document (name : str) :
  path_join (lit "images") name <> index_html.
Proof.
  unfold path_join. destruct (startswith name (lit "/")) eqn:Hs.
  - intros ->. discriminate.
  - change (negb (truthy (lit "images")) || endswith (lit "images") (lit "/"))
      with false. cbv iota.
    change (lit "images") with [105; 109; 97; 103; 101; 115].
    change index_html with [105; 110; 100; 101; 120; 46; 104; 116; 109; 108].
    cbn [app]. discriminate.
Qed.

(** C10: when [index.html] does not exist once the image is copied, the
    patch returns [False] and writes nothing, and the entry point exits
    with status 1; the copy stays in the images folder. *)
Theorem missing_document_leaves_asset (env : environment) (argv : list str)
        (w : world) (content : str) :
  (2 <= length argv)%nat ->
  fs w !! nth 1 argv [] = Some content ->
  makedirs_ok env = true ->
  copy_ok env (nth 1 argv [])
    (path_join (lit "images") (basename (nth 1 argv []))) = true ->
  fs w !! index_html = None ->
  fst (AddImage.add_image_to_html (basename (nth 1 argv [])) index_html
         (copied w (nth 1 argv []) content)) = Val false
  /\ fs (snd (AddImage.add_image_to_html (basename (nth 1 argv [])) index_html
                (copied w (nth 1 argv []) content)))
     = fs (copied w (nth 1 argv []) content)
  /\ exit_status (fst (AddImage.main env argv w)) = 1%Z
  /\ fs (snd (AddImage.main env argv w))
     = <[path_join (lit "images") (basename (nth 1 argv [])) := content]> (fs w)
  /\ fs (snd (AddImage.main env argv w))
       !! path_join (lit "images") (basename (nth 1 argv [])) = Some content
  /\ fs (snd (AddImage.main env argv w)) !! index_html = None.
Proof.
  intros Hn Hsrc Hmk Hcp Hdoc.
  assert (Hdoc' : fs (copied w (nth 1 argv []) content) !! index_html = None).
  { cbn [copied fs]. rewrite lookup_insert_ne; [done|].
    apply destination_not_document. }
  rewrite main_run, Hsrc, Hmk, Hcp.
  destruct (Nat.ltb_spec (length argv) 2); [lia|]. cbn [negb].
  rewrite add_image_to_html_run, Hdoc'. cbn [fst snd fs copied].
  repeat split; try done.
  by rewrite lookup_insert_eq.
Qed.

Lemma missing_document_leaves_asset_witness :
  exit_status
    (fst (AddImage.main env_nothing_to_commit
            [lit "add_image.py"; lit "/tmp/a.jpg"]
            (mkWorld {[ lit "/tmp/a.jpg" := lit "IMG" ]} [] []))) = 1%Z
  /\ fs (snd (AddImage.main env_nothing_to_commit
                [lit "add_image.py"; lit "/tmp/a.jpg"]
                (mkWorld {[ lit "/tmp/a.jpg" := lit "IMG" ]} [] [])))
       !! lit "images/a.jpg" = Some (lit "IMG").
Proof.
  destruct (missing_document_leaves_asset env_nothing_to_commit
              [lit "add_image.py"; lit "/tmp/a.jpg"]
              (mkWorld {[ lit "/tmp/a.jpg" := lit "IMG" ]} [] []) (lit "IMG"))
    as (_ & _ & H1 & _ & H2 & _);
    [cbn; lia | vm_compute; reflexivity | reflexivity | reflexivity
    | vm_compute; reflexivity |].
  split; [exact H1 | exact H2].
Defined.


(** ** What the pattern accepts *)

Lemma lstrip_split (s : str) : exists w, s = w ++ lstrip s /\ blank w = true.
Proof.
  induction s as [|c s (w & IH & Hw)]; [by exists []|]. simpl.
  destruct (isspace c) eqn:Hc; [|by exists []].
  exists (c :: w). split; [simpl; by f_equal|]. unfold blank. simpl.
  by rewrite Hc.
Qed.

Lemma lstrip_word (l x : str) :
  negb (blank (firstn 1 l)) = true -> lstrip (l ++ x) = l ++ x.
Proof.
  destruct l as [|c l]; [done|]. unfold blank. cbn [firstn forallb app lstrip].
  rewrite andb_true_r. intros Hc. apply negb_true_iff in Hc. by rewrite Hc.
Qed.

Lemma is_opening_of (ws1 ws2 ws3 : str) :
  ws1 <> [] -> blank ws1 = true -> blank ws2 = true -> blank ws3 = true ->
  is_opening (opening_of ws1 ws2 ws3).
Proof.
  intros Hne H1 H2 H3. destruct ws1 as [|c w1]; [done|].
  unfold blank in H1. cbn [forallb] in H1. apply andb_true_iff in H1 as [Hc H1].
  unfold is_opening, lex_opening, opening_of.
  rewrite strip_prefix_complete. cbn [app]. rewrite Hc.
  rewrite lstrip_spaces by done.
  rewrite (lstrip_word (lit "images")) by reflexivity.
  rewrite strip_prefix_complete. rewrite lstrip_spaces by done.
  rewrite (lstrip_word (lit "=")) by reflexivity.
  rewrite strip_prefix_complete. rewrite lstrip_spaces by done.
  reflexivity.
Qed.

Lemma is_opening_inv (o : str) :
  is_opening o ->
  exists ws1 ws2 ws3,
    o = opening_of ws1 ws2 ws3 /\ ws1 <> []
    /\ blank ws1 = true /\ blank ws2 = true /\ blank ws3 = true.
Proof.
  unfold is_opening, lex_opening. intros H.
  destruct (strip_prefix (lit "const") o) as [[|c s1]|] eqn:E1; try discriminate.
  destruct (isspace c) eqn:Hc; [|discriminate].
  destruct (strip_prefix (lit "images") (lstrip s1)) as [s2|] eqn:E2; [|discriminate].
  destruct (strip_prefix (lit "=") (lstrip s2)) as [s3|] eqn:E3; [|discriminate].
  apply strip_prefix_app in E1, E2, E3, H.
  destruct (lstrip_split s1) as (w1 & H1 & B1), (lstrip_split s2) as (w2 & H2 & B2),
    (lstrip_split s3) as (w3 & H3 & B3).
  exists (c :: w1), w2, w3. repeat split; try done.
  - unfold opening_of. rewrite E1. rewrite H1 at 1. rewrite E2.
    rewrite H2 at 1. rewrite E3. rewrite H3 at 1. rewrite H.
    rewrite app_nil_r. list_assoc.
  - unfold blank. cbn [forallb]. by rewrite Hc.
Qed.

Lemma find_close_body (s b t : str) :
  find_close s = Some (b, t) -> find_close b = None.
Proof.
  revert b t. induction s as [|c s IH]; intros b t H; [done|].
  cbn [find_close] in H.
  destruct (strip_prefix CLOSE (c :: s)) as [t'|] eqn:E.
  - by injection H as <- <-.
  - destruct (find_close s) as [[b' t']|] eqn:E'; [|done].
    injection H as <- <-. apply find_close_none_cons. split; [|by eapply IH].
    rewrite (find_close_app _ _ _ E') in E. revert E.
    change CLOSE with [RBRACKET; 59]. cbn [strip_prefix].
    destruct (RBRACKET =? c); [|done].
    destruct b' as [|d b']; cbn [app strip_prefix]; [done|].
    by destruct (59 =? d).
Qed.

(** X1: what the pattern matches at the head of a text, exactly.  A
    match is [const], white space, [images], optional white space, [=],
    optional white space and a left bracket, a body without the closing
    token, and the closing token; the three groups are that opening, that
    body and the closing token. *)
Theorem pattern_match_shape (s t : str) (g : groups) :
  match_here pattern s = Some (g, t) <->
  exists ws1 ws2 ws3 b,
    ws1 <> [] /\ blank ws1 = true /\ blank ws2 = true /\ blank ws3 = true
    /\ find_close b = None
    /\ s = opening_of ws1 ws2 ws3 ++ b ++ CLOSE ++ t
    /\ g = pattern_groups (opening_of ws1 ws2 ws3) b.
Proof.
  rewrite match_here_pattern. split.
  - destruct (declaration s) as [[[o b] t']|] eqn:Hd; [|done].
    intros [= <- <-]. apply declaration_inv in Hd as (Hs & Ho & Hc).
    destruct (is_opening_inv o Ho) as (ws1 & ws2 & ws3 & -> & ? & ? & ? & ?).
    exists ws1, ws2, ws3, b. repeat split; try done.
    by apply find_close_body in Hc.
  - intros (ws1 & ws2 & ws3 & b & Hne & H1 & H2 & H3 & Hb & -> & ->).
    rewrite declaration_intro; [done| |done]. by apply is_opening_of.
Qed.

Lemma find_declaration_leftmost (s p1 p2 : str) (d : str * str * str) :
  find_declaration s = Some (p1 ++ p2, d) -> p2 <> [] ->
  exists rest, s = p1 ++ p2 ++ rest /\ declaration (p2 ++ rest) = None.
Proof.
  revert s. induction p1 as [|a p1 IH]; intros s H Hne.
  - destruct p2 as [|c p2]; [done|]. cbn [app] in *.
    destruct (find_declaration_inv _ _ _ H) as (rest & -> & _).
    exists rest. split; [done|]. cbn [app find_declaration] in H.
    by destruct (declaration (c :: p2 ++ rest)).
  - destruct s as [|c s]; cbn [app find_declaration] in H.
    { by destruct (declaration []). }
    destruct (declaration (c :: s)); [done|].
    destruct (find_declaration s) as [[p' d']|] eqn:E; [|done].
    injection H as -> -> ->. destruct (IH s E Hne) as (rest & -> & Hr).
    by exists rest.
Qed.

(** X2: what [re.search] returns for the pattern.  The document is the
    text before the match, the match and the text after it; the match is
    an opening, a body that does not hold the closing token, and the
    closing token; and no match begins anywhere before it. *)
Theorem search_finds_first_declaration (document : str) (m : Match) :
  re_search pattern document = Some m ->
  document = m_pre m ++ group (m_groups m) 0 ++ m_post m
  /\ group (m_groups m) 0
     = group (m_groups m) 1 ++ group (m_groups m) 2 ++ group (m_groups m) 3
  /\ is_opening (group (m_groups m) 1)
  /\ find_close (group (m_groups m) 2) = None
  /\ group (m_groups m) 3 = CLOSE
  /\ forall p1 p2,
       m_pre m = p1 ++ p2 -> p2 <> [] ->
       match_here pattern (p2 ++ group (m_groups m) 0 ++ m_post m) = None.
Proof.
  rewrite re_search_pattern.
  destruct (find_declaration document) as [[p [[o b] t]]|] eqn:Hd; [|done].
  intros [= <-]. cbn [m_pre m_groups m_post].
  rewrite group_0, group_1, group_2, group_3.
  destruct (find_declaration_inv _ _ _ Hd) as (rest & Hs & Hdecl).
  apply declaration_inv in Hdecl as (-> & Ho & Hc).
  repeat split; try done.
  - rewrite Hs. list_assoc.
  - by apply find_close_body in Hc.
  - intros p1 p2 -> Hne.
    destruct (find_declaration_leftmost _ _ _ _ Hd Hne) as (rest & Hs' & Hnone).
    rewrite Hs, <- app_assoc in Hs'. do 2 apply app_inv_head in Hs'. subst rest.
    rewrite match_here_pattern.
    replace (p2 ++ (o ++ b ++ CLOSE) ++ t) with (p2 ++ o ++ b ++ CLOSE ++ t)
      by list_assoc.
    by rewrite Hnone.
Qed.

Lemma search_finds_first_declaration_witness :
  find_close (group (pattern_groups OPENING scenario_body) 2) = None.
Proof.
  apply (search_finds_first_declaration
           (lit "<p>" ++ scenario_declaration ++ lit "</p>")
           (mkMatch (lit "<p>") (pattern_groups OPENING scenario_body)
              (lit "</p>"))).
  vm_compute; reflexivity.
Defined.

(** X3: the branch structure of lines 40-51 ([add_image.py]) and 34-45
    ([update.py]) on the body as it is captured and stripped.  The inner
    test [array_content.strip()] never fails, so its [else] branch is never
    taken, and three cases remain: a blank body gives the quoted name on a
    line of its own; a body that ends with a comma is followed by a
    newline, the indentation and the quoted name; any other body gets a
    comma first. *)
Theorem new_array_content_cases (body image_filename : str) :
  AddImage.new_array_content (strip body) image_filename
  = Update.new_array_content (strip body) image_filename
  /\ (truthy (strip body) = true -> truthy (strip (strip body)) = true)
  /\ AddImage.new_array_content (strip body) image_filename
     = if truthy (strip body) then
         if endswith (strip body) (lit ",") then
           strip body ++ [NL] ++ INDENT ++ [QUOTE] ++ image_filename ++ [QUOTE]
         else
           strip body ++ lit "," ++ [NL] ++ INDENT
             ++ [QUOTE] ++ image_filename ++ [QUOTE]
       else
         [NL] ++ INDENT ++ [QUOTE] ++ image_filename ++ [QUOTE] ++ [NL] ++ INDENT.
Proof.
  split; [reflexivity|]. split; [apply truthy_strip_strip|].
  apply new_array_content_strip.
Qed.

(** ** The patched document *)

Lemma plain_app (x y : str) :
  plain x = true -> x <> [] -> no_backslash y = true -> plain (x ++ y) = true.
Proof.
  unfold plain. intros H Hne Hy. destruct x as [|c x]; [done|].
  apply andb_true_iff in H as [Hx Hc]. cbn [app].
  change (c :: x ++ y) with ((c :: x) ++ y) at 1.
  by rewrite no_backslash_app, Hx, Hy, Hc.
Qed.

Lemma truthy_nonempty (x : str) : truthy x = true -> x <> [].
Proof. by destruct x. Qed.

Lemma new_array_content_plain (body filename : str) :
  plain (strip body) = true -> no_backslash filename = true ->
  plain (AddImage.new_array_content (strip body) filename) = true.
Proof.
  intros Hb Hf. rewrite new_array_content_strip.
  destruct (truthy (strip body)) eqn:Ht.
  - apply truthy_nonempty in Ht.
    destruct (endswith (strip body) (lit ",")); apply plain_app; try done;
      rewrite !no_backslash_app, Hf; reflexivity.
  - unfold plain. rewrite !no_backslash_app, Hf. reflexivity.
Qed.

(** X4: the document a patch writes.  When the pattern matches once in
    the text read from the document, the stripped body holds no backslash
    and does not begin with a digit, the file name holds no backslash, and
    the document and the file name are encodable, the patch succeeds and
    the new document is the text read with the body, white space around it
    included, replaced by the new array text: the old entries stay, in
    their order, and the new one comes last. *)
Theorem patch_result (document filename : str) (m : Match) :
  re_search pattern (universal_newlines document) = Some m ->
  re_search pattern (m_post m) = None ->
  plain (strip (group (m_groups m) 2)) = true ->
  no_backslash filename = true ->
  encodable document = true -> encodable filename = true ->
  appendEntry document filename
  = Val (Some
           (m_pre m ++ group (m_groups m) 1
              ++ (if truthy (strip (group (m_groups m) 2)) then
                    if endswith (strip (group (m_groups m) 2)) (lit ",") then
                      strip (group (m_groups m) 2) ++ [NL] ++ INDENT
                        ++ [QUOTE] ++ filename ++ [QUOTE]
                    else
                      strip (group (m_groups m) 2) ++ lit "," ++ [NL] ++ INDENT
                        ++ [QUOTE] ++ filename ++ [QUOTE]
                  else
                    [NL] ++ INDENT ++ [QUOTE] ++ filename ++ [QUOTE]
                      ++ [NL] ++ INDENT)
              ++ CLOSE ++ m_post m)).
Proof.
  intros Hm Hpost Hb Hf Ed Ef. rewrite re_search_pattern in Hm.
  destruct (find_declaration (universal_newlines document))
    as [[p [[o b] t]]|] eqn:Hd; [|done].
  injection Hm as <-. cbn [m_pre m_groups m_post] in *.
  rewrite group_1. rewrite group_2 in *.
  rewrite (appendEntry_plain _ _ _ _ _ _ Hd)
    by (done || by apply new_array_content_plain).
  apply re_search_none in Hpost. rewrite sub_loop_not_found by done.
  rewrite new_array_content_strip. do 2 f_equal. list_assoc.
Qed.

Lemma patch_result_witness :
  appendEntry (lit "<p>" ++ [CR; NL] ++ scenario_declaration ++ lit "</p>" ++ [CR])
    (lit "b.jpg")
  = Val (Some (lit "<p>" ++ [NL] ++ scenario_patched ++ lit "</p>" ++ [NL])).
Proof.
  rewrite (patch_result
             (lit "<p>" ++ [CR; NL] ++ scenario_declaration ++ lit "</p>" ++ [CR])
             (lit "b.jpg")
             (mkMatch (lit "<p>" ++ [NL]) (pattern_groups OPENING scenario_body)
                (lit "</p>" ++ [NL])));
    vm_compute; reflexivity.
Defined.

Lemma lex_opening_prefix (o r r' : str) :
  lex_opening (o ++ r) = Some r -> lex_opening (o ++ r') = Some r'.
Proof. intros H. apply lex_opening_split. by apply lex_opening_split in H. Qed.

(** The leftmost declaration keeps its place and its opening when the text
    after the opening is replaced by one that still holds the closing
    token. *)
Lemma find_declaration_stays (p o b t r' b' t' : str) :
  find_declaration (p ++ o ++ b ++ CLOSE ++ t) = Some (p, (o, b, t)) ->
  find_close r' = Some (b', t') ->
  find_declaration (p ++ o ++ r') = Some (p, (o, b', t')).
Proof.
  intros Hd Hr'.
  assert (Ho : is_opening o).
  { destruct (find_declaration_inv _ _ _ Hd) as (rest & Hrest & Hdecl).
    apply app_inv_head in Hrest. subst rest.
    by apply declaration_inv in Hdecl as (_ & Ho & _). }
  clear -Hd Hr' Ho. induction p as [|c p IH].
  - cbn [app]. apply find_declaration_here. unfold declaration.
    apply (lex_opening_split o r') in Ho. rewrite Ho, Hr'.
    by rewrite take_length_diff.
  - cbn [app find_declaration] in Hd |- *.
    destruct (declaration (c :: p ++ o ++ b ++ CLOSE ++ t)) as [d|] eqn:E.
    { by injection Hd. }
    destruct (find_declaration (p ++ o ++ b ++ CLOSE ++ t)) as [[p' d]|] eqn:E';
      [|done].
    injection Hd as -> ->.
    assert (declaration (c :: p ++ o ++ r') = None) as ->.
    { change (c :: p ++ o ++ r') with ((c :: p) ++ o ++ r').
      rewrite app_assoc.
      apply (declaration_none_stable _ (b ++ CLOSE ++ t)).
      - apply elem_of_app. right. by apply is_opening_bracket.
      - apply find_close_contains.
      - rewrite <- app_assoc. exact E. }
    by rewrite IH.
Qed.

(** X5: a patch can be repeated.  After a patch whose new array text is
    plain, the pattern still matches the document, as it is stored and as
    the next run reads it, at the place and with the opening it had in the
    text this run read. *)
Theorem patched_document_still_matches
        (document filename document' : str) (m : Match) :
  re_search pattern (universal_newlines document) = Some m ->
  plain (AddImage.new_array_content (strip (group (m_groups m) 2)) filename)
  = true ->
  appendEntry document filename = Val (Some document') ->
  forall d, d = document' \/ d = universal_newlines document' ->
  exists m',
    re_search pattern d = Some m'
    /\ m_pre m' = m_pre m
    /\ group (m_groups m') 1 = group (m_groups m) 1.
Proof.
  intros Hm Hx Hrun. rewrite re_search_pattern in Hm.
  destruct (find_declaration (universal_newlines document))
    as [[p [[o b] t]]|] eqn:Hd; [|done].
  injection Hm as <-. cbn [m_pre m_groups m_post] in *. rewrite group_2 in Hx.
  rewrite appendEntry_run, Hd, (re_sub_plain _ _ _ _ _ _ Hx Hd) in Hrun.
  destruct (encodable _); [|done]. injection Hrun as <-.
  set (x := AddImage.new_array_content (strip b) filename).
  set (t1 := sub_loop pattern _ t 0).
  destruct (find_close_contains x t1) as [[b' t'] Hc].
  pose proof Hd as Hd'. rewrite (find_declaration_app _ _ _ _ _ Hd) in Hd'.
  pose proof (find_declaration_stays _ _ _ _ _ _ _ Hd' Hc) as Hs.
  replace (p ++ (o ++ x ++ CLOSE) ++ t1) with (p ++ o ++ x ++ CLOSE ++ t1)
    by list_assoc.
  pose proof (no_cr_universal_newlines document) as Hcr.
  rewrite (find_declaration_app _ _ _ _ _ Hd), !no_cr_app in Hcr.
  apply andb_true_iff in Hcr as [Hp Hcr]. apply andb_true_iff in Hcr as [Ho _].
  intros d [->| ->].
  - exists (mkMatch p (pattern_groups o b') t'). cbn [m_pre m_groups].
    rewrite !group_1. split; [|done]. by rewrite re_search_pattern, Hs.
  - exists (mkMatch p (pattern_groups o (universal_newlines b'))
              (universal_newlines t')).
    cbn [m_pre m_groups]. rewrite !group_1. split; [|done].
    rewrite re_search_pattern, (find_declaration_read _ _ _ _ _ Hs).
    by rewrite (universal_newlines_no_cr p), (universal_newlines_no_cr o).
Qed.

Lemma patched_document_still_matches_witness :
  exists m',
    re_search pattern (lit "<p>" ++ [NL] ++ scenario_patched ++ lit "</p>")
    = Some m'
    /\ m_pre m' = lit "<p>" ++ [NL]
    /\ group (m_groups m') 1
       = group (pattern_groups OPENING scenario_body) 1.
Proof.
  apply (patched_document_still_matches
           (lit "<p>" ++ [CR; NL] ++ scenario_declaration ++ lit "</p>")
           (lit "b.jpg")
           (lit "<p>" ++ [NL] ++ scenario_patched ++ lit "</p>")
           (mkMatch (lit "<p>" ++ [NL]) (pattern_groups OPENING scenario_body)
              (lit "</p>")));
    [vm_compute; reflexivity..|by left].
Defined.

(** ** What a run of the patch changes in the world *)

(** X6: the footprint of [add_image_to_html].  It runs no command and no
    file other than the document is ever changed.  When it returns
    [False] no file is changed at all; when it returns [True] it has
    printed nothing and the document holds an encodable text; and when it
    raises, either the world is what it was ([re.sub] rejected the
    replacement) or nothing has happened but that the document is now
    empty (the new text could not be encoded). *)
Theorem patch_footprint (image_filename html_file : str) (w : world) :
  cmds (snd (AddImage.add_image_to_html image_filename html_file w)) = cmds w
  /\ (forall p, p <> html_file ->
        fs (snd (AddImage.add_image_to_html image_filename html_file w)) !! p
        = fs w !! p)
  /\ (fst (AddImage.add_image_to_html image_filename html_file w) = Val false ->
      fs (snd (AddImage.add_image_to_html image_filename html_file w)) = fs w)
  /\ (fst (AddImage.add_image_to_html image_filename html_file w) = Val true ->
      out (snd (AddImage.add_image_to_html image_filename html_file w)) = out w
      /\ exists text,
           encodable text = true
           /\ fs (snd (AddImage.add_image_to_html image_filename html_file w))
              = <[html_file := text]> (fs w))
  /\ (forall e,
        fst (AddImage.add_image_to_html image_filename html_file w) = Exc e ->
        snd (AddImage.add_image_to_html image_filename html_file w) = w
        \/ snd (AddImage.add_image_to_html image_filename html_file w)
           = mkWorld (<[html_file := []]> (fs w)) (out w) (cmds w)).
Proof.
  rewrite add_image_to_html_run.
  destruct (fs w !! html_file) as [content|]; [|by repeat split].
  destruct (find_declaration _) as [[p [[o b] t]]|]; [|by repeat split].
  destruct (re_sub _ _ _) as [new_content|].
  2: { repeat split; try done. intros e _. by left. }
  destruct (encodable new_content) eqn:En; cbn [fst snd fs out cmds].
  - repeat split; try done.
    + intros q Hq. by rewrite lookup_insert_ne.
    + by exists new_content.
  - repeat split; try done.
    + intros q Hq. by rewrite lookup_insert_ne.
    + intros e _. by right.
Qed.

(** ** File names the replacement template rejects *)

Lemma letter_not_digit (c : N) : is_ascii_letter c = true -> is_digit c = false.
Proof.
  unfold is_ascii_letter, is_digit. intros H.
  apply andb_false_iff. destruct (N.leb_spec c 57); [|by right].
  exfalso. apply orb_true_iff in H as [H|H];
    apply andb_true_iff in H as [H _]; apply N.leb_le in H; lia.
Qed.

Lemma parse_template_bad_escape (n : N) (x rest : str) (c : N) :
  no_backslash x = true -> is_ascii_letter c = true ->
  escape_char c = None -> c <> 103 ->
  parse_template n None (x ++ BACKSLASH :: c :: rest) = None.
Proof.
  intros Hx Hl He Hg. induction x as [|a x IH].
  - cbn [app parse_template]. rewrite N.eqb_refl.
    apply N.eqb_neq in Hg. rewrite Hg.
    assert (Hd := letter_not_digit c Hl).
    assert ((c =? 48) = false) as ->.
    { apply N.eqb_neq. intros ->. discriminate. }
    by rewrite Hd, He, Hl.
  - cbn [no_backslash forallb] in Hx. apply andb_true_iff in Hx as [Ha Hx].
    apply negb_true_iff in Ha. cbn [app parse_template]. rewrite Ha.
    by rewrite IH.
Qed.

Lemma parse_template_backref (n : N) (y : str) :
  match y with a :: _ => is_digit a = false | [] => False end ->
  parse_template n None (BACKSLASH :: 49 :: y)
  = addgroup n 1 (parse_template n None y).
Proof.
  destruct y as [|a y]; [done|]. intros Hd.
  cbn [parse_template]. rewrite N.eqb_refl.
  change (49 =? 103) with false. change (49 =? 48) with false.
  change (is_digit 49) with true. cbv iota. by rewrite Hd.
Qed.

Lemma parse_replacement_bad_escape (x rest : str) (c : N) :
  plain x = true -> x <> [] -> is_ascii_letter c = true ->
  escape_char c = None -> c <> 103 ->
  parse_template 3 None (replacement (x ++ BACKSLASH :: c :: rest)) = None.
Proof.
  intros Hx Hne Hl He Hg. unfold replacement.
  replace ([BACKSLASH; 49] ++ (x ++ BACKSLASH :: c :: rest) ++ [BACKSLASH; 51])
    with (BACKSLASH :: 49 :: x ++ BACKSLASH :: c :: (rest ++ [BACKSLASH; 51]))
    by list_assoc.
  unfold plain in Hx. apply andb_true_iff in Hx as [Hb Hd].
  rewrite parse_template_backref.
  - rewrite parse_template_bad_escape by done. reflexivity.
  - destruct x as [|a x]; [done|]. by apply negb_true_iff in Hd.
Qed.

(** The quoted name sits in the new array text after a plain, non-empty
    text. *)
Lemma new_array_content_around (body filename : str) :
  plain (strip body) = true ->
  exists u v,
    AddImage.new_array_content (strip body) filename = u ++ filename ++ v
    /\ plain u = true /\ u <> [].
Proof.
  intros Hb. rewrite new_array_content_strip.
  destruct (truthy (strip body)) eqn:Ht.
  - apply truthy_nonempty in Ht.
    destruct (endswith (strip body) (lit ",")).
    + exists (strip body ++ [NL] ++ INDENT ++ [QUOTE]), [QUOTE].
      split; [list_assoc|]. split; [by apply plain_app|].
      by destruct (strip body).
    + exists (strip body ++ lit "," ++ [NL] ++ INDENT ++ [QUOTE]), [QUOTE].
      split; [list_assoc|]. split; [by apply plain_app|].
      by destruct (strip body).
  - exists ([NL] ++ INDENT ++ [QUOTE]), ([QUOTE] ++ [NL] ++ INDENT).
    split; [list_assoc|]. done.
Qed.

Lemma add_image_to_html_bad_escape
      (html_file content a z : str) (c : N) (w : world) (m : Match) :
  fs w !! html_file = Some content ->
  re_search pattern content = Some m ->
  plain (strip (group (m_groups m) 2)) = true ->
  no_backslash a = true ->
  is_ascii_letter c = true -> escape_char c = None -> c <> 103 ->
  AddImage.add_image_to_html (a ++ [BACKSLASH; c] ++ z) html_file w
  = (Exc Error, w).
Proof.
  intros Hf Hm Hb Ha Hl He Hg. rewrite add_image_to_html_run, Hf.
  rewrite re_search_pattern in Hm.
  destruct (find_declaration content) as [[p [[o b] t]]|] eqn:Hd; [|done].
  injection Hm as <-. cbn [m_groups] in Hb. rewrite group_2 in Hb.
  rewrite (find_declaration_read _ _ _ _ _ Hd).
  apply plain_newlines in Hb. rewrite <- strip_newlines in Hb.
  destruct (new_array_content_around _ (a ++ [BACKSLASH; c] ++ z) Hb)
    as (u & v & -> & Hu & Hne).
  unfold re_sub. change (ngroups pattern) with 3.
  replace (u ++ (a ++ [BACKSLASH; c] ++ z) ++ v)
    with ((u ++ a) ++ BACKSLASH :: c :: (z ++ v)) by list_assoc.
  rewrite parse_replacement_bad_escape; try done.
  - by apply plain_app.
  - by destruct u.
Qed.

(** X7: a file name the patch cannot take.  When the document has a
    declaration with a plain stripped body, a file name whose first
    backslash is followed by an ASCII letter other than a, b, f, g, n, r,
    t and v makes [add_image_to_html] raise, in either script: [re.sub]
    rejects the replacement string.  The world is left as it was. *)
Theorem bad_escape_in_name_raises
        (html_file content a z : str) (c : N) (w : world) (m : Match) :
  fs w !! html_file = Some content ->
  re_search pattern content = Some m ->
  plain (strip (group (m_groups m) 2)) = true ->
  no_backslash a = true ->
  is_ascii_letter c = true -> escape_char c = None -> c <> 103 ->
  AddImage.add_image_to_html (a ++ [BACKSLASH; c] ++ z) html_file w
  = (Exc Error, w)
  /\ Update.add_image_to_html (a ++ [BACKSLASH; c] ++ z) html_file w
     = (Exc Error, w).
Proof.
  intros Hf Hm Hb Ha Hl He Hg.
  change (Update.add_image_to_html (a ++ [BACKSLASH; c] ++ z) html_file w)
    with (AddImage.add_image_to_html (a ++ [BACKSLASH; c] ++ z) html_file w).
  split; by eapply add_image_to_html_bad_escape.
Qed.

Lemma bad_escape_in_name_raises_witness :
  AddImage.add_image_to_html (lit "my" ++ [BACKSLASH; 112] ++ lit "hoto.jpg")
    index_html sample_world
  = (Exc Error, sample_world).
Proof.
  apply (bad_escape_in_name_raises index_html (lit "const images = [];")
           (lit "my") (lit "hoto.jpg") 112 sample_world
           (mkMatch [] (pattern_groups OPENING []) []));
    first [vm_compute; reflexivity | discriminate].
Defined.

(** ** The publisher, step by step *)

Lemma commit_and_push_changes_run (env : environment) (image_filename : str)
      (commit_message : option str) (w : world) :
  AddImage.commit_and_push_changes env image_filename commit_message w =
  let commit := cmd_commit (effective_message image_filename commit_message) in
  let c0 := shell env (cmds w) CMD_REV_PARSE in
  let c1 := shell env (cmds w ++ [CMD_REV_PARSE]) (cmd_add image_filename) in
  let c2 := shell env (cmds w ++ [CMD_REV_PARSE; cmd_add image_filename]) commit in
  let c3 :=
    shell env (cmds w ++ [CMD_REV_PARSE; cmd_add image_filename; commit])
      CMD_PUSH in
  let cs :=
    shell env (cmds w ++ [CMD_REV_PARSE; cmd_add image_filename; commit])
      CMD_STATUS in
  if negb (returncode_zero c0) then
    (Val false,
     mkWorld (fs w) (out w ++ failure_lines MSG_NOT_A_REPO c0)
       (cmds w ++ [CMD_REV_PARSE]))
  else if negb (returncode_zero c1) then
    (Val false,
     mkWorld (fs w)
       (out w ++ [LINE_PUBLISHING; LINE_ADDING] ++ failure_lines MSG_ADD_FAILED c1)
       (cmds w ++ [CMD_REV_PARSE; cmd_add image_filename]))
  else if negb (returncode_zero c2) then
    (Val false,
     mkWorld (fs w)
       (out w ++ [LINE_PUBLISHING; LINE_ADDING; LINE_COMMITTING]
          ++ failure_lines MSG_COMMIT_FAILED c2 ++ failure_lines [] cs
          ++ (if truthy (strip (command_output cs)) then [] else [LINE_NO_CHANGES]))
       (cmds w ++ [CMD_REV_PARSE; cmd_add image_filename; commit; CMD_STATUS]))
  else if returncode_zero c3 then
    (Val true,
     mkWorld (fs w)
       (out w ++ [LINE_PUBLISHING; LINE_ADDING; LINE_COMMITTING; LINE_PUSHING]
          ++ LINES_PUBLISHED)
       (cmds w ++ [CMD_REV_PARSE; cmd_add image_filename; commit; CMD_PUSH]))
  else
    (Val false,
     mkWorld (fs w)
       (out w ++ [LINE_PUBLISHING; LINE_ADDING; LINE_COMMITTING; LINE_PUSHING]
          ++ failure_lines MSG_PUSH_FAILED c3 ++ LINES_NOT_PUSHED)
       (cmds w ++ [CMD_REV_PARSE; cmd_add image_filename; commit; CMD_PUSH])).
Proof.
  cbv zeta.
  unfold AddImage.commit_and_push_changes, AddImage.check_git_repo, bind.
  fold (effective_message image_filename commit_message).
  fold (cmd_commit (effective_message image_filename commit_message)).
  fold (cmd_add image_filename).
  change (lit "git rev-parse --git-dir") with CMD_REV_PARSE.
  change (lit "git status --porcelain") with CMD_STATUS.
  change (lit "git push") with CMD_PUSH.
  fold MSG_NOT_A_REPO MSG_ADD_FAILED MSG_COMMIT_FAILED MSG_PUSH_FAILED.
  rewrite run_git_command_run. run.
  destruct (returncode_zero (shell env (cmds w) CMD_REV_PARSE)) eqn:H0; run;
    [|done].
  rewrite run_git_command_run. run. rewrite <- !app_assoc. cbn [app].
  unfold failure_lines at 1. rewrite H0. cbn [app].
  destruct (returncode_zero (shell env _ (cmd_add image_filename))) eqn:H1; run.
  2:{ do 2 f_equal. }
  rewrite run_git_command_run. run. rewrite <- !app_assoc. cbn [app].
  unfold failure_lines at 1. rewrite H1. cbn [app].
  destruct (returncode_zero (shell env _ (cmd_commit _))) eqn:H2; run.
  - rewrite run_git_command_run. run. rewrite <- !app_assoc. cbn [app].
    unfold failure_lines at 1. rewrite H2. cbn [app].
    destruct (returncode_zero (shell env _ CMD_PUSH)) eqn:H3; run.
    + unfold failure_lines. rewrite H3. do 2 f_equal. list_assoc.
    + do 2 f_equal. list_assoc.
  - rewrite run_git_command_run. run. rewrite <- !app_assoc. cbn [app].
    destruct (truthy (strip (command_output _))); run; do 2 f_equal; list_assoc.
    by rewrite app_nil_r.
Qed.

(** X8: when the publisher succeeds.  For a file name and a commit
    message that a command line can hold (no NUL character: Python starts
    no command that has one), [commit_and_push_changes] returns [True]
    exactly when the repository check, the staging, the commit and the
    push all end with status zero. *)
Theorem publisher_true_iff (env : environment) (image_filename : str)
        (commit_message : option str) (w : world) :
  no_nul image_filename = true ->
  no_nul (effective_message image_filename commit_message) = true ->
  fst (AddImage.commit_and_push_changes env image_filename commit_message w)
  = Val true
  <->
  returncode_zero (shell env (cmds w) CMD_REV_PARSE) = true
  /\ returncode_zero
       (shell env (cmds w ++ [CMD_REV_PARSE]) (cmd_add image_filename)) = true
  /\ returncode_zero
       (shell env (cmds w ++ [CMD_REV_PARSE; cmd_add image_filename])
          (cmd_commit (effective_message image_filename commit_message)))
     = true
  /\ returncode_zero
       (shell env
          (cmds w ++ [CMD_REV_PARSE; cmd_add image_filename;
                      cmd_commit
                        (effective_message image_filename commit_message)])
          CMD_PUSH) = true.
Proof.
  intros _ _. rewrite commit_and_push_changes_run. cbv zeta.
  destruct (returncode_zero (shell env (cmds w) CMD_REV_PARSE)); cbn [negb].
  2:{ split; [done|]. by intros []. }
  destruct (returncode_zero (shell env (cmds w ++ [CMD_REV_PARSE]) _));
    cbn [negb].
  2:{ split; [done|]. by intros (_ & ? & _). }
  destruct (returncode_zero
              (shell env (cmds w ++ [CMD_REV_PARSE; cmd_add image_filename]) _));
    cbn [negb].
  2:{ split; [done|]. by intros (_ & _ & ? & _). }
  destruct (returncode_zero (shell env _ CMD_PUSH)).
  - done.
  - split; [done|]. by intros (_ & _ & _ & ?).
Qed.

Lemma publisher_true_iff_witness :
  fst (AddImage.commit_and_push_changes env_no_remote (lit "a.jpg") None
         (mkWorld ∅ [] []))
  <> Val true.
Proof.
  intros H.
  apply (publisher_true_iff env_no_remote (lit "a.jpg") None (mkWorld ∅ [] []))
    in H as (_ & _ & _ & H); [discriminate H|reflexivity..].
Defined.

(** X9: the commands the publisher runs, in order.  It always starts with
    the repository check and stops at the first command that fails; the
    commit uses the given message, or [Add image: <name>] when the message
    is absent or empty; the status query is run only after a failed
    commit and the push only after a successful one. *)
Theorem publisher_commands (env : environment) (image_filename : str)
        (commit_message : option str) (w : world) :
  cmds (snd (AddImage.commit_and_push_changes env image_filename
               commit_message w))
  = cmds w
    ++ (if negb (returncode_zero (shell env (cmds w) CMD_REV_PARSE)) then
          [CMD_REV_PARSE]
        else if negb (returncode_zero
                        (shell env (cmds w ++ [CMD_REV_PARSE])
                           (cmd_add image_filename))) then
          [CMD_REV_PARSE; cmd_add image_filename]
        else
          [CMD_REV_PARSE; cmd_add image_filename;
           cmd_commit
             (match commit_message with
              | Some (c :: msg) => c :: msg
              | _ => lit "Add image: " ++ image_filename
              end);
           if negb (returncode_zero
                      (shell env
                         (cmds w ++ [CMD_REV_PARSE; cmd_add image_filename])
                         (cmd_commit
                            (effective_message image_filename commit_message))))
           then CMD_STATUS else CMD_PUSH]).
Proof.
  rewrite commit_and_push_changes_run. cbv zeta.
  assert (effective_message image_filename commit_message
          = match commit_message with
            | Some (c :: msg) => c :: msg
            | _ => lit "Add image: " ++ image_filename
            end) as <- by (by destruct commit_message as [[|c msg]|]).
  destruct (returncode_zero (shell env (cmds w) CMD_REV_PARSE)); cbn [negb];
    [|done].
  destruct (returncode_zero (shell env (cmds w ++ [CMD_REV_PARSE]) _));
    cbn [negb]; [|done].
  destruct (returncode_zero
              (shell env (cmds w ++ [CMD_REV_PARSE; cmd_add image_filename]) _));
    cbn [negb]; [|done].
  by destruct (returncode_zero (shell env _ CMD_PUSH)).
Qed.

(** X10: outside a git repository.  When the repository check fails the
    publisher prints its error and the details, runs nothing else, prints
    nothing else and returns [False]. *)
Theorem publisher_not_a_repository (env : environment) (image_filename : str)
        (commit_message : option str) (w : world) :
  returncode_zero (shell env (cmds w) CMD_REV_PARSE) = false ->
  AddImage.commit_and_push_changes env image_filename commit_message w
  = (Val false,
     mkWorld (fs w)
       (out w ++ [lit "Error: " ++ MSG_NOT_A_REPO;
                  lit "Details: "
                    ++ proc_stderr (shell env (cmds w) CMD_REV_PARSE)])
       (cmds w ++ [CMD_REV_PARSE])).
Proof.
  intros H. rewrite commit_and_push_changes_run. cbv zeta.
  unfold failure_lines. by rewrite H.
Qed.

(** X11: a push that fails.  When the check, the staging and the commit
    succeed and the push does not, the publisher returns [False] after
    printing the push error and the advice that the changes are committed
    locally but not pushed. *)
Theorem publisher_push_failure (env : environment) (image_filename : str)
        (commit_message : option str) (w : world) :
  returncode_zero (shell env (cmds w) CMD_REV_PARSE) = true ->
  returncode_zero
    (shell env (cmds w ++ [CMD_REV_PARSE]) (cmd_add image_filename)) = true ->
  returncode_zero
    (shell env (cmds w ++ [CMD_REV_PARSE; cmd_add image_filename])
       (cmd_commit (effective_message image_filename commit_message))) = true ->
  returncode_zero
    (shell env
       (cmds w ++ [CMD_REV_PARSE; cmd_add image_filename;
                   cmd_commit (effective_message image_filename commit_message)])
       CMD_PUSH) = false ->
  AddImage.commit_and_push_changes env image_filename commit_message w
  = (Val false,
     mkWorld (fs w)
       (out w
          ++ [LINE_PUBLISHING; LINE_ADDING; LINE_COMMITTING; LINE_PUSHING;
              lit "Error: " ++ MSG_PUSH_FAILED;
              lit "Details: "
                ++ proc_stderr
                     (shell env
                        (cmds w ++ [CMD_REV_PARSE; cmd_add image_filename;
                                    cmd_commit
                                      (effective_message image_filename
                                         commit_message)])
                        CMD_PUSH)]
          ++ LINES_NOT_PUSHED)
       (cmds w ++ [CMD_REV_PARSE; cmd_add image_filename;
                   cmd_commit (effective_message image_filename commit_message);
                   CMD_PUSH])).
Proof.
  intros H0 H1 H2 H3. rewrite commit_and_push_changes_run. cbv zeta.
  rewrite H0, H1, H2, H3. cbn [negb]. unfold failure_lines. rewrite H3.
  do 2 f_equal.
Qed.

Lemma publisher_not_a_repository_witness :
  fst (AddImage.commit_and_push_changes env_no_repository (lit "a.jpg") None
         sample_world) = Val false.
Proof.
  rewrite (publisher_not_a_repository env_no_repository (lit "a.jpg") None
             sample_world) by reflexivity.
  reflexivity.
Defined.

Lemma publisher_push_failure_witness :
  fst (AddImage.commit_and_push_changes env_no_remote (lit "a.jpg") None
         sample_world) = Val false.
Proof.
  rewrite (publisher_push_failure env_no_remote (lit "a.jpg") None sample_world)
    by (vm_compute; reflexivity).
  reflexivity.
Defined.

(** ** The entry points, end to end *)

Lemma update_main_run (env : environment) (argv : list str) (w : world) :
  Update.main env argv w =
  if (length argv <? 2)%nat then
    (Exc (SystemExit 1),
     mkWorld (fs w) (out w ++ [lit "Usage: python update.py <image_file_path>"])
       (cmds w))
  else
    match fs w !! nth 1 argv [] with
    | None =>
        (Exc (SystemExit 1),
         mkWorld (fs w)
           (out w ++ [lit "Error: Image file '" ++ nth 1 argv [] ++ lit "' not found!"])
           (cmds w))
    | Some content =>
        if negb (makedirs_ok env) then (Exc Error, w)
        else if negb (copy_ok env (nth 1 argv [])
                        (path_join (lit "images") (basename (nth 1 argv []))))
        then
          (Exc (SystemExit 1),
           mkWorld (fs w) (out w ++ [lit "Error copying file: "]) (cmds w))
        else
          match Update.add_image_to_html (basename (nth 1 argv [])) index_html
                  (copied w (nth 1 argv []) content) with
          | (Val true, w2) =>
              (Val tt,
               mkWorld (fs w2)
                 (out w2 ++ [[10003] ++ lit " Added '" ++ basename (nth 1 argv [])
                               ++ lit "' to index.html";
                             [NL] ++ lit "Done! Your image has been added successfully."])
                 (cmds w2))
          | (Val false, w2) =>
              (Exc (SystemExit 1),
               mkWorld (fs w2) (out w2 ++ [lit "Failed to update index.html"])
                 (cmds w2))
          | (Exc e, w2) => (Exc e, w2)
          end
    end.
Proof.
  unfold Update.main, bind.
  destruct (length argv <? 2)%nat; run; [done|].
  unfold os_path_exists.
  destruct (fs w !! nth 1 argv []) as [content|] eqn:Hsrc; run; [|done].
  change (bool_decide (is_Some (Some content))) with true. run.
  unfold os_makedirs. destruct (makedirs_ok env); run; [|done].
  unfold try_except, shutil_copy2, bind.
  destruct (copy_ok env _ _); run; [|done].
  rewrite Hsrc. run.
  fold (copied w (nth 1 argv []) content).
  destruct (Update.add_image_to_html _ _ _) as [[[|]|e] w2]; run; try done.
  by rewrite <- app_assoc.
Qed.

Lemma appendEntry_world (document document' filename html_file : str)
      (w : world) :
  fs w !! html_file = Some document ->
  appendEntry document filename = Val (Some document') ->
  AddImage.add_image_to_html filename html_file w
  = (Val true, mkWorld (<[html_file := document']> (fs w)) (out w) (cmds w)).
Proof.
  intros Hf Hrun. rewrite appendEntry_run in Hrun.
  rewrite add_image_to_html_run, Hf.
  destruct (find_declaration _) as [[p [[o b] t]]|]; [|done].
  destruct (re_sub _ _ _) as [new_content|]; [|done].
  destruct (encodable new_content); [|done]. by injection Hrun as ->.
Qed.

Lemma patch_cmds (image_filename html_file : str) (w : world) :
  cmds (snd (AddImage.add_image_to_html image_filename html_file w)) = cmds w.
Proof.
  rewrite add_image_to_html_run.
  destruct (fs w !! html_file); [|done].
  destruct (find_declaration _) as [[p [[o b] t]]|]; [|done].
  destruct (re_sub _ _ _) as [new_content|]; [|done].
  by destruct (encodable new_content).
Qed.

(** X12: nothing happens without a source.  Called without an argument,
    or with a path that does not exist, either script exits with status 1
    and has written no file and run no command. *)
Theorem no_source_no_work (env : environment) (argv : list str) (w : world) :
  (length argv < 2)%nat \/ fs w !! nth 1 argv [] = None ->
  exit_status (fst (AddImage.main env argv w)) = 1%Z
  /\ fs (snd (AddImage.main env argv w)) = fs w
  /\ cmds (snd (AddImage.main env argv w)) = cmds w
  /\ exit_status (fst (Update.main env argv w)) = 1%Z
  /\ fs (snd (Update.main env argv w)) = fs w
  /\ cmds (snd (Update.main env argv w)) = cmds w.
Proof.
  intros H. rewrite main_run, update_main_run.
  destruct (length argv <? 2)%nat eqn:Hn; [done|].
  destruct H as [H|H].
  - apply Nat.ltb_ge in Hn. lia.
  - by rewrite H.
Qed.

Lemma no_source_no_work_witness :
  exit_status (fst (AddImage.main env_nothing_to_commit [lit "add_image.py"]
                      sample_world)) = 1%Z
  /\ fs (snd (Update.main env_nothing_to_commit
                [lit "update.py"; lit "/tmp/missing.jpg"] sample_world))
     = fs sample_world.
Proof.
  split.
  - apply (no_source_no_work env_nothing_to_commit [lit "add_image.py"]
             sample_world).
    left. cbn. lia.
  - apply (no_source_no_work env_nothing_to_commit
             [lit "update.py"; lit "/tmp/missing.jpg"] sample_world).
    right. vm_compute; reflexivity.
Defined.

(** X13: a page without the declaration.  When the copy succeeds and
    [index.html] exists but holds no match of the pattern, [add_image.py]
    prints the two errors and exits with status 1; [index.html] is not
    rewritten, the copy stays in the images folder, and the publisher is
    not run. *)
Theorem main_without_declaration (env : environment) (argv : list str)
        (w : world) (content document : str) :
  (2 <= length argv)%nat ->
  fs w !! nth 1 argv [] = Some content ->
  makedirs_ok env = true ->
  copy_ok env (nth 1 argv [])
    (path_join (lit "images") (basename (nth 1 argv []))) = true ->
  fs w !! index_html = Some document ->
  re_search pattern document = None ->
  AddImage.main env argv w
  = (Exc (SystemExit 1),
     mkWorld
       (<[path_join (lit "images") (basename (nth 1 argv [])) := content]> (fs w))
       (out (copied w (nth 1 argv []) content)
          ++ [lit "Error: Could not find 'const images = [...];' in index.html";
              lit "Failed to update index.html"])
       (cmds w))
  /\ fs (snd (AddImage.main env argv w)) !! index_html = Some document.
Proof.
  intros Hn Hsrc Hmk Hcp Hdoc Hnone.
  assert (Hdoc' : fs (copied w (nth 1 argv []) content) !! index_html
                  = Some document).
  { cbn [copied fs]. rewrite lookup_insert_ne; [done|].
    apply destination_not_document. }
  apply re_search_none, find_declaration_read_none in Hnone.
  rewrite main_run, Hsrc, Hmk, Hcp.
  destruct (Nat.ltb_spec (length argv) 2); [lia|]. cbn [negb].
  rewrite add_image_to_html_run, Hdoc', Hnone. cbn [fst snd fs cmds out copied].
  split; [by rewrite <- app_assoc|].
  rewrite lookup_insert_ne; [done|]. apply destination_not_document.
Qed.

Lemma main_without_declaration_witness :
  exit_status
    (fst (AddImage.main env_nothing_to_commit
            [lit "add_image.py"; lit "/tmp/a.jpg"] world_without_declaration))
  = 1%Z.
Proof.
  destruct (main_without_declaration env_nothing_to_commit
              [lit "add_image.py"; lit "/tmp/a.jpg"] world_without_declaration
              (lit "IMG") (lit "<html></html>")) as [-> _];
    first [vm_compute; reflexivity | cbn; lia].
Defined.

(** X14: [add_image.py] from end to end.  When the source exists, the
    copy succeeds and the patch of [index.html] with the path's last
    component succeeds, the run ends with status 0 and what it leaves is
    what the publisher leaves: the publisher is called with that name and
    the optional message, after the two progress lines, on files that
    differ from those at the start in two places only: the image is under
    [images/] with the contents of the source and [index.html] holds the
    patched document. *)
Theorem main_end_to_end (env : environment) (argv : list str) (w : world)
        (content document document' : str) :
  (2 <= length argv)%nat ->
  fs w !! nth 1 argv [] = Some content ->
  makedirs_ok env = true ->
  copy_ok env (nth 1 argv [])
    (path_join (lit "images") (basename (nth 1 argv []))) = true ->
  fs w !! index_html = Some document ->
  appendEntry document (basename (nth 1 argv [])) = Val (Some document') ->
  exit_status (fst (AddImage.main env argv w)) = 0%Z
  /\ snd (AddImage.main env argv w)
     = snd (AddImage.commit_and_push_changes env (basename (nth 1 argv []))
              (if (2 <? length argv)%nat then Some (nth 2 argv []) else None)
              (mkWorld
                 (<[index_html := document']>
                    (<[path_join (lit "images") (basename (nth 1 argv [])) := content]>
                       (fs w)))
                 (out (copied w (nth 1 argv []) content)
                    ++ [[10003] ++ lit " Added '" ++ basename (nth 1 argv [])
                          ++ lit "' to index.html"])
                 (cmds w))).
Proof.
  intros Hn Hsrc Hmk Hcp Hdoc Hrun.
  assert (Hdoc' : fs (copied w (nth 1 argv []) content) !! index_html
                  = Some document).
  { cbn [copied fs]. rewrite lookup_insert_ne; [done|].
    apply destination_not_document. }
  rewrite main_run, Hsrc, Hmk, Hcp.
  destruct (Nat.ltb_spec (length argv) 2); [lia|]. cbn [negb].
  rewrite (appendEntry_world _ _ _ _ _ Hdoc' Hrun). cbn [fs out cmds copied].
  match goal with
  | |- context [AddImage.commit_and_push_changes ?e ?f ?msg ?w0] =>
      destruct (commit_and_push_changes_returns e f msg w0) as (b & w3 & Hp)
  end.
  rewrite Hp in *. cbn [fst snd fs] in *. done.
Qed.

Lemma main_end_to_end_witness :
  exit_status
    (fst (AddImage.main env_nothing_to_commit
            [lit "add_image.py"; lit "/tmp/a.jpg"] sample_world))
  = 0%Z.
Proof.
  apply (main_end_to_end env_nothing_to_commit
           [lit "add_image.py"; lit "/tmp/a.jpg"] sample_world
           (lit "IMG") (lit "const images = [];")
           (OPENING ++ [NL] ++ INDENT ++ [QUOTE] ++ lit "a.jpg" ++ [QUOTE]
              ++ [NL] ++ INDENT ++ CLOSE));
    first [vm_compute; reflexivity | cbn; lia].
Defined.

(** X15: [update.py] is [add_image.py] without the publisher.  On the same
    arguments and world, [update.py] runs no command at all and exits with
    the status of [add_image.py].  When that status is not 0 the two leave
    the same files; when it is 0, [add_image.py] has gone on to call the
    publisher, on the files [update.py] leaves and before any command was
    run, and leaves what the publisher leaves. *)
Theorem update_is_add_image_without_publisher
        (env : environment) (argv : list str) (w : world) :
  cmds (snd (Update.main env argv w)) = cmds w
  /\ exit_status (fst (Update.main env argv w))
     = exit_status (fst (AddImage.main env argv w))
  /\ (exit_status (fst (AddImage.main env argv w)) <> 0%Z ->
      fs (snd (Update.main env argv w)) = fs (snd (AddImage.main env argv w)))
  /\ (exit_status (fst (AddImage.main env argv w)) = 0%Z ->
      exists w1,
        fs w1 = fs (snd (Update.main env argv w))
        /\ cmds w1 = cmds w
        /\ snd (AddImage.main env argv w)
           = snd (AddImage.commit_and_push_changes env (basename (nth 1 argv []))
                    (if (2 <? length argv)%nat then Some (nth 2 argv [])
                     else None)
                    w1)).
Proof.
  rewrite main_run, update_main_run.
  destruct (length argv <? 2)%nat; [done|].
  destruct (fs w !! nth 1 argv []) as [content|]; [|done].
  destruct (makedirs_ok env); [|done]. cbn [negb].
  destruct (copy_ok env _ _); [|done]. cbn [negb].
  change (Update.add_image_to_html (basename (nth 1 argv [])) index_html
            (copied w (nth 1 argv []) content))
    with (AddImage.add_image_to_html (basename (nth 1 argv [])) index_html
            (copied w (nth 1 argv []) content)).
  pose proof (patch_cmds (basename (nth 1 argv [])) index_html
                (copied w (nth 1 argv []) content)) as Hc.
  pose proof (add_image_to_html_no_exit (basename (nth 1 argv [])) index_html
                (copied w (nth 1 argv []) content)) as Hx.
  destruct (AddImage.add_image_to_html _ _ _) as [[[|]|e] w2];
    cbn [fst snd fs cmds copied] in *; try done.
  - match goal with
    | |- context [AddImage.commit_and_push_changes ?e ?f ?msg ?w0] =>
        destruct (commit_and_push_changes_returns e f msg w0) as (b & w3 & Hp);
        pose (w1 := w0)
    end.
    fold w1 in Hp |- *. rewrite Hp. cbn [fst snd exit_status].
    repeat split; try done. intros _. exists w1. by rewrite Hp.
  - repeat split; try done. destruct e as [code|]; [|done].
    by destruct (Hx code).
Qed.

(** X16: a run on a file name the patch cannot take.  When the source
    exists and the copy succeeds, [index.html] exists and holds a
    declaration whose stripped body is plain, and the last component of
    the path is encodable and has, as its first backslash, one that is
    followed by an ASCII letter other than a, b, f, g, n, r, t and v,
    either script ends with the exception [re.sub] raises, which nobody
    catches, so with status 1: the image has been copied, [index.html] is
    as it was, and nothing is printed after the line about the copy. *)
Theorem main_with_bad_escape_in_name
        (env : environment) (argv : list str) (w : world)
        (content document a z : str) (c : N) (m : Match) :
  (2 <= length argv)%nat ->
  fs w !! nth 1 argv [] = Some content ->
  makedirs_ok env = true ->
  copy_ok env (nth 1 argv [])
    (path_join (lit "images") (basename (nth 1 argv []))) = true ->
  fs w !! index_html = Some document ->
  re_search pattern document = Some m ->
  plain (strip (group (m_groups m) 2)) = true ->
  basename (nth 1 argv []) = a ++ [BACKSLASH; c] ++ z ->
  encodable (basename (nth 1 argv [])) = true ->
  no_backslash a = true ->
  is_ascii_letter c = true -> escape_char c = None -> c <> 103 ->
  AddImage.main env argv w = (Exc Error, copied w (nth 1 argv []) content)
  /\ Update.main env argv w = (Exc Error, copied w (nth 1 argv []) content)
  /\ exit_status (fst (AddImage.main env argv w)) = 1%Z
  /\ fs (copied w (nth 1 argv []) content) !! index_html = Some document.
Proof.
  intros Hn Hsrc Hmk Hcp Hdoc Hm Hb Hname _ Ha Hl He Hg.
  assert (Hdoc' : fs (copied w (nth 1 argv []) content) !! index_html
                  = Some document).
  { cbn [copied fs]. rewrite lookup_insert_ne; [done|].
    apply destination_not_document. }
  assert (Hrun : AddImage.add_image_to_html (basename (nth 1 argv [])) index_html
                   (copied w (nth 1 argv []) content)
                 = (Exc Error, copied w (nth 1 argv []) content)).
  { rewrite Hname. by eapply add_image_to_html_bad_escape. }
  rewrite main_run, update_main_run, Hsrc, Hmk, Hcp.
  destruct (Nat.ltb_spec (length argv) 2); [lia|]. cbn [negb].
  change (Update.add_image_to_html (basename (nth 1 argv [])) index_html
            (copied w (nth 1 argv []) content))
    with (AddImage.add_image_to_html (basename (nth 1 argv [])) index_html
            (copied w (nth 1 argv []) content)).
  rewrite Hrun. done.
Qed.

Lemma main_with_bad_escape_in_name_witness :
  exit_status
    (fst (AddImage.main env_nothing_to_commit
            [lit "add_image.py"; lit "/tmp/my" ++ [BACKSLASH] ++ lit "photo.jpg"]
            (mkWorld (<[lit "/tmp/my" ++ [BACKSLASH] ++ lit "photo.jpg" := lit "IMG"]>
                        {[ index_html := lit "const images = [];" ]}) [] [])))
  = 1%Z.
Proof.
  apply (main_with_bad_escape_in_name env_nothing_to_commit
           [lit "add_image.py"; lit "/tmp/my" ++ [BACKSLASH] ++ lit "photo.jpg"]
           (mkWorld (<[lit "/tmp/my" ++ [BACKSLASH] ++ lit "photo.jpg" := lit "IMG"]>
                       {[ index_html := lit "const images = [];" ]}) [] [])
           (lit "IMG") (lit "const images = [];") (lit "my") (lit "hoto.jpg") 112
           (mkMatch [] (pattern_groups OPENING []) []));
    first [vm_compute; reflexivity | cbn; lia | discriminate].
Defined.

(** ** Any number of additions *)

Lemma entries_snoc (l : list str) (f : str) :
  l <> [] ->
  entries (l ++ [f]) = entries l ++ lit "," ++ [NL] ++ INDENT ++ quoted f.
Proof.
  induction l as [|g l IH]; [done|]. intros _.
  destruct l as [|h l]; [reflexivity|].
  change (entries ((g :: h :: l) ++ [f]))
    with (quoted g ++ lit "," ++ [NL] ++ INDENT ++ entries ((h :: l) ++ [f])).
  rewrite IH by done.
  change (entries (g :: h :: l))
    with (quoted g ++ lit "," ++ [NL] ++ INDENT ++ entries (h :: l)).
  by rewrite <- !app_assoc.
Qed.

Lemma separator_no_bracket :
  RBRACKET ∉ lit "," ++ [NL] ++ INDENT ++ [QUOTE].
Proof.
  vm_compute. intros H.
  repeat (apply elem_of_cons in H as [H|H]; [done|]).
  by apply elem_of_nil in H.
Qed.

Lemma find_close_quoted_tail (f : str) :
  find_close f = None -> find_close (f ++ [QUOTE]) = None.
Proof. intros H. by apply find_close_none_app. Qed.

Lemma settled_quoted (f : str) : tame f -> settled (quoted f).
Proof.
  intros (Hb & Hc & _). exists f. split; [done|]. split; [done|].
  unfold quoted. apply (find_close_skip [QUOTE]).
  - intros H. apply elem_of_cons in H as [H|H]; [done|].
    by apply elem_of_nil in H.
  - by apply find_close_quoted_tail.
Qed.

Lemma settled_snoc (e f : str) :
  settled e -> tame f ->
  settled (e ++ lit "," ++ [NL] ++ INDENT ++ quoted f).
Proof.
  intros (x & -> & Hx & Hc) (Hb & Hf & _).
  exists (x ++ [QUOTE] ++ lit "," ++ [NL] ++ INDENT ++ [QUOTE] ++ f).
  split; [unfold quoted; list_assoc|]. split.
  - rewrite !no_backslash_app, Hx, Hb. reflexivity.
  - apply find_close_none_app; [done| |done].
    unfold quoted. rewrite 3!app_assoc. apply find_close_skip.
    + rewrite <- !app_assoc. apply separator_no_bracket.
    + by apply find_close_quoted_tail.
Qed.

Lemma settled_plain (e : str) : settled e -> plain e = true /\ strip e = e.
Proof.
  intros (x & -> & Hx & _). split.
  - unfold plain. change (QUOTE :: x ++ [QUOTE]) with ([QUOTE] ++ x ++ [QUOTE]).
    rewrite !no_backslash_app, Hx. reflexivity.
  - by apply strip_delimited.
Qed.

Lemma append_to_settled (document p o b t f : str) :
  find_declaration (universal_newlines document) = Some (p, (o, b, t)) ->
  settled (strip b) -> tame f -> encodable document = true ->
  exists t',
    appendEntry document f
    = Val (Some (p ++ o ++ (strip b ++ lit "," ++ [NL] ++ INDENT ++ quoted f)
                   ++ CLOSE ++ t'))
    /\ find_declaration
         (p ++ o ++ (strip b ++ lit "," ++ [NL] ++ INDENT ++ quoted f)
            ++ CLOSE ++ t')
       = Some (p, (o, strip b ++ lit "," ++ [NL] ++ INDENT ++ quoted f, t'))
    /\ encodable
         (p ++ o ++ (strip b ++ lit "," ++ [NL] ++ INDENT ++ quoted f)
            ++ CLOSE ++ t') = true.
Proof.
  intros Hd He Hf Ed. pose proof (settled_snoc _ _ He Hf) as Hs.
  destruct (settled_plain _ Hs) as [Hp _].
  destruct He as (x & Hx & Hbx & Hcx).
  assert (Hn : AddImage.new_array_content (strip b) f
               = strip b ++ lit "," ++ [NL] ++ INDENT ++ quoted f).
  { assert (Ht : truthy (strip b) = true) by (by rewrite Hx).
    assert (Hw : endswith (strip b) (lit ",") = false).
    { rewrite Hx. change (QUOTE :: x ++ [QUOTE]) with ((QUOTE :: x) ++ [QUOTE]).
      change (lit ",") with [44]. by rewrite endswith_snoc. }
    by rewrite new_array_content_strip, Ht, Hw. }
  destruct Hf as (_ & _ & _ & Ef).
  pose proof (encodable_patched _ f _ _ _ _ Hd (encodable_newlines _ Ed) Ef)
    as Ed'.
  rewrite (appendEntry_plain _ _ _ _ _ _ Hd); rewrite ?Hn; [|done..].
  rewrite Hn in Ed'. rewrite <- !app_assoc in Ed'.
  eexists. split; [by rewrite <- !app_assoc|]. split.
  - apply (find_declaration_stable p o b t).
    + by rewrite <- (find_declaration_app _ _ _ _ _ Hd).
    + by destruct Hs as (? & _ & _ & ?).
  - by rewrite <- !app_assoc.
Qed.

Lemma append_to_blank (document p o b t f : str) :
  find_declaration (universal_newlines document) = Some (p, (o, b, t)) ->
  strip b = [] -> tame f -> encodable document = true ->
  exists x t',
    appendEntry document f = Val (Some (p ++ o ++ x ++ CLOSE ++ t'))
    /\ find_declaration (p ++ o ++ x ++ CLOSE ++ t') = Some (p, (o, x, t'))
    /\ strip x = quoted f
    /\ encodable (p ++ o ++ x ++ CLOSE ++ t') = true.
Proof.
  intros Hd Hb (Hbf & Hcf & _ & Ef) Ed.
  set (x := [NL] ++ INDENT ++ [QUOTE] ++ f ++ [QUOTE] ++ [NL] ++ INDENT).
  assert (Hn : AddImage.new_array_content (strip b) f = x)
    by (rewrite Hb; reflexivity).
  assert (Hp : plain x = true).
  { unfold plain, x. rewrite !no_backslash_app, Hbf. reflexivity. }
  pose proof (encodable_patched _ f _ _ _ _ Hd (encodable_newlines _ Ed) Ef)
    as Ed'.
  exists x. rewrite (appendEntry_plain _ _ _ _ _ _ Hd); rewrite ?Hn; [|done..].
  rewrite Hn in Ed'. rewrite <- !app_assoc in Ed'.
  eexists. split; [by rewrite <- !app_assoc|]. split; [|split].
  - apply (find_declaration_stable p o b t).
    + by rewrite <- (find_declaration_app _ _ _ _ _ Hd).
    + unfold x. rewrite 2!app_assoc. apply find_close_skip.
      * vm_compute. intros H.
        repeat (apply elem_of_cons in H as [H|H]; [done|]).
        by apply elem_of_nil in H.
      * apply find_close_none_app; done.
  - unfold x, quoted.
    replace ([NL] ++ INDENT ++ [QUOTE] ++ f ++ [QUOTE] ++ [NL] ++ INDENT)
      with (([NL] ++ INDENT) ++ (QUOTE :: f ++ [QUOTE]) ++ ([NL] ++ INDENT))
      by list_assoc.
    by apply strip_padded.
  - done.
Qed.

Lemma no_cr_quoted (f : str) : tame f -> no_cr (quoted f) = true.
Proof.
  intros (_ & _ & Hf & _). unfold quoted. by rewrite !no_cr_app, Hf.
Qed.

Lemma additions_from_settled (names : list str) :
  forall (document p o b t : str) (l : list str),
    find_declaration document = Some (p, (o, b, t)) ->
    l <> [] -> strip b = entries l -> settled (entries l) ->
    no_cr (entries l) = true -> encodable document = true ->
    Forall tame names ->
    strip <$> body_after (appendEntry_all document names)
    = Some (entries (l ++ names)).
Proof.
  induction names as [|f names IH];
    intros document p o b t l Hd Hl Hb Hs Hcr Ed Hn.
  - rewrite app_nil_r. cbn [appendEntry_all fold_left body_after].
    by rewrite (manifest_body_found _ _ _ _ _ Hd), <- Hb.
  - apply Forall_cons in Hn as [Hf Hn].
    apply find_declaration_read in Hd.
    assert (Hb' : strip (universal_newlines b) = entries l).
    { by rewrite strip_newlines, Hb, universal_newlines_no_cr. }
    rewrite <- Hb' in Hs.
    destruct (append_to_settled _ _ _ _ _ _ Hd Hs Hf Ed)
      as (t' & Hrun & Hd' & Ed').
    unfold appendEntry_all. cbn [fold_left]. rewrite Hrun.
    match goal with
    | |- context [fold_left _ names (Val (Some ?d))] =>
        fold (appendEntry_all d names)
    end.
    replace (l ++ f :: names) with ((l ++ [f]) ++ names)
      by (by rewrite <- app_assoc).
    assert (He : strip (universal_newlines b) ++ lit "," ++ [NL] ++ INDENT
                   ++ quoted f
                 = entries (l ++ [f])) by (by rewrite entries_snoc, Hb').
    pose proof (settled_snoc _ _ Hs Hf) as Hs'. rewrite He in Hs', Hd', Ed'.
    rewrite He.
    apply (IH _ (universal_newlines p) (universal_newlines o)
             (entries (l ++ [f])) t'); try done.
    + by destruct l.
    + by apply settled_plain.
    + rewrite entries_snoc, !no_cr_app, Hcr, no_cr_quoted by done. reflexivity.
Qed.

(** X17: any number of additions.  Starting from an encodable document
    whose manifest body is blank, adding one after the other any encodable
    file names that hold neither a backslash, nor the closing token, nor a
    carriage return succeeds every time, and the trimmed body of the
    manifest is then the quoted names in the order they were added,
    separated by a comma and a line break, with no comma after the last.
    Names are not compared: a name added twice is there twice. *)
Theorem additions_in_order (document : str) (names : list str) :
  strip <$> manifest_body document = Some [] ->
  encodable document = true ->
  names <> [] -> Forall tame names ->
  strip <$> body_after (appendEntry_all document names) = Some (entries names).
Proof.
  intros Hbody Ed Hne Hn. destruct names as [|f names]; [done|].
  apply Forall_cons in Hn as [Hf Hn].
  destruct (manifest_body document) as [b|] eqn:Hm; [|done].
  injection Hbody as Hb.
  destruct (manifest_body_inv _ _ Hm) as (p & o & t & Hd).
  apply find_declaration_read in Hd.
  assert (Hb' : strip (universal_newlines b) = [])
    by (by rewrite strip_newlines, Hb).
  destruct (append_to_blank _ _ _ _ _ _ Hd Hb' Hf Ed)
    as (x & t' & Hrun & Hd' & Hx & Ed').
  unfold appendEntry_all. cbn [fold_left]. rewrite Hrun.
  match goal with
  | |- context [fold_left _ names (Val (Some ?d))] =>
      fold (appendEntry_all d names)
  end.
  apply (additions_from_settled names _ (universal_newlines p)
           (universal_newlines o) x t' [f]); try done.
  - by apply settled_quoted.
  - by apply no_cr_quoted.
Qed.

Lemma additions_in_order_witness :
  strip <$> body_after
              (appendEntry_all (lit "<script>const images = [ ];</script>")
                 [lit "a.jpg"; lit "b.jpg"; lit "a.jpg"])
  = Some (entries [lit "a.jpg"; lit "b.jpg"; lit "a.jpg"]).
Proof.
  apply (additions_in_order (lit "<script>const images = [ ];</script>")
           [lit "a.jpg"; lit "b.jpg"; lit "a.jpg"]).
  - vm_compute; reflexivity.
  - vm_compute; reflexivity.
  - discriminate.
  - repeat constructor; vm_compute; reflexivity.
Defined.
